(** * SEO analyzer: keyword inserter, score calculator, content filter

    A shallow embedding of the three pure functions of the analyzer
    ([insertKeyword] of [lib/insertKeywords.ts]; [calculateScore] and
    [isMeaningfulContent] of [app/api/analyze/route.ts]), of the
    request handler [POST] that calls them and of the page that calls
    the handler ([app/page.tsx]), followed by the properties the
    specification states about them and by further properties of the
    code.

    Modelling conventions.
    - A JavaScript string is a [string]: a sequence of code units, here
      the code units below 256 (ASCII and Latin-1).  On that range the
      white-space class of [trim] and of the regular expression [\s],
      the digit class [\d] and [toLowerCase] are written out exactly.
    - A JavaScript number is a rational [Q]; arithmetic is exact, where
      the source computes in binary64.  The constants [0.6], [0.3], ...
      are the decimal fractions the source writes.  [Math.round] rounds
      half-way cases towards plus infinity.
    - A [Record<string, number>] is the list of its entries in property
      enumeration order, which is what [Object.keys], [Object.values]
      and [Object.entries] expose. *)

From Stdlib Require Import QArith Qround Qminmax Lqa ZArith Lia Sorted.
From Stdlib Require Import Ascii String PrimFloat.
From stdpp Require Import gmap strings list.

Open Scope string_scope.

(** ** JavaScript built-ins used by the source *)

Module JS.

(** *** Code units *)

Definition code (c : ascii) : N := N_of_ascii c.

(** White space and line terminators below U+0100: TAB, LF, VT, FF,
    CR, SP and NBSP.  This is the class removed by [trim] and matched
    by [\s]. *)
Definition isWhiteSpace (c : ascii) : bool :=
  let n := code c in
  ((9 <=? n) && (n <=? 13) || (n =? 32) || (n =? 160))%N.

(** The class [\d] (without the unicode flag): the digits 0 to 9. *)
Definition isDigit (c : ascii) : bool :=
  let n := code c in ((48 <=? n) && (n <=? 57))%N.

(** Simple lower-case mapping below U+0100: A-Z, and the Latin-1
    capitals U+00C0..U+00DE except the multiplication sign U+00D7. *)
Definition lowerChar (c : ascii) : ascii :=
  let n := code c in
  if ((65 <=? n) && (n <=? 90) || (192 <=? n) && (n <=? 222) && negb (n =? 215))%N
  then ascii_of_N (n + 32) else c.

(** *** String.prototype methods *)

Fixpoint toLowerCase (s : string) : string :=
  match s with
  | EmptyString => EmptyString
  | String c s' => String (lowerChar c) (toLowerCase s')
  end.

Fixpoint trimStart (s : string) : string :=
  match s with
  | EmptyString => EmptyString
  | String c s' => if isWhiteSpace c then trimStart s' else s
  end.

Fixpoint trimEnd (s : string) : string :=
  match s with
  | EmptyString => EmptyString
  | String c s' =>
      let r := trimEnd s' in
      if isWhiteSpace c && String.eqb r EmptyString then EmptyString
      else String c r
  end.

Definition trim (s : string) : string := trimEnd (trimStart s).

(** [s.includes(t)]: [t] occurs in [s] at some position. *)
Fixpoint includes (s t : string) : bool :=
  String.prefix t s ||
  match s with
  | EmptyString => false
  | String _ s' => includes s' t
  end.

(** [s.split(sep)] for a one-character separator.  The scan keeps the
    segment started at the last separator in [cur]; each separator
    closes the segment, and the end of the string closes the last. *)
Fixpoint split_from (sep : ascii) (cur s : string) : list string :=
  match s with
  | EmptyString => [cur]
  | String c s' =>
      if Ascii.eqb c sep then cur :: split_from sep EmptyString s'
      else split_from sep (cur +:+ String c EmptyString) s'
  end.

Definition split (sep : ascii) (s : string) : list string :=
  split_from sep EmptyString s.

(** [s.split(/\s+/)].  A maximal run of white space is one separator:
    the first white-space character of a run closes the current
    segment, the following ones of the same run are skipped. *)
Fixpoint splitWs_from (inRun : bool) (cur s : string) : list string :=
  match s with
  | EmptyString => [cur]
  | String c s' =>
      if isWhiteSpace c then
        if inRun then splitWs_from true EmptyString s'
        else cur :: splitWs_from true EmptyString s'
      else splitWs_from false (cur +:+ String c EmptyString) s'
  end.

Definition splitWs (s : string) : list string :=
  splitWs_from false EmptyString s.

(** [arr.join(sep)]. *)
Fixpoint join (sep : string) (l : list string) : string :=
  match l with
  | [] => EmptyString
  | [x] => x
  | x :: rest => x +:+ sep +:+ join sep rest
  end.

(** [/^\d+$/.test(s)]: non-empty and made of digits only. *)
Fixpoint allDigits (s : string) : bool :=
  match s with
  | EmptyString => true
  | String c s' => isDigit c && allDigits s'
  end.

Definition isNumeric (s : string) : bool :=
  negb (String.eqb s EmptyString) && allDigits s.

(** *** Numbers *)

Definition ltb (x y : Q) : bool := negb (Qle_bool y x).
Definition geb (x y : Q) : bool := Qle_bool y x.

Definition ofNat (n : nat) : Q := inject_Z (Z.of_nat n).

(** [Math.round]: the nearest integer, ties towards plus infinity. *)
Definition Math_round (x : Q) : Q := inject_Z (Qfloor (x + (1 # 2))).

Definition Math_min (x y : Q) : Q := Qmin x y.
Definition Math_max (x y : Q) : Q := Qmax x y.

(** [Math.max(...xs, last)]. *)
Definition Math_max_spread (xs : list Q) (last : Q) : Q :=
  fold_right Qmax last xs.

(** *** Arrays *)

(** [arr.sort(cmp)]: a stable sort; [b] goes before [a] exactly when
    [cmp a b] is positive. *)
Fixpoint sort_insert {A} (cmp : A -> A -> Q) (x : A) (l : list A) : list A :=
  match l with
  | [] => [x]
  | y :: l' =>
      if ltb 0 (cmp x y) then y :: sort_insert cmp x l'
      else x :: y :: l'
  end.

Definition sort {A} (cmp : A -> A -> Q) (l : list A) : list A :=
  fold_right (sort_insert cmp) [] l.

(** *** Objects used as maps *)

(** The type [Record<string, V>]: the entries, in enumeration order. *)

Definition RecordOf (V : Type) : Type := list (string * V).

Definition Object_keys {V} (o : RecordOf V) : list string := map fst o.
Definition Object_values {V} (o : RecordOf V) : list V := map snd o.
Definition Object_entries {V} (o : RecordOf V) : list (string * V) := o.

End JS.

Import JS.

(** ** lib/insertKeywords.ts *)

Definition insertKeyword (text keyword : string) : string :=
  if includes text keyword then text
  else
    let sentences := split "." text in
    if (length sentences =? 0)%nat then keyword +:+ ". " +:+ text
    else
      let sentences := alter (fun s => s +:+ " " +:+ keyword) 0%nat sentences in
      join "." sentences.

(** ** app/api/analyze/route.ts *)

Record TwinwordResponse := {
  keyword : option (RecordOf Q);
  topic : option (RecordOf Q);
  result_code : string;
  result_msg : string
}.

(** *** The score calculator *)

Section Score.
Open Scope Q_scope.

(** Content length factor (the [lengthFactor] variable). *)
Definition lengthFactor (textLength : nat) : Q :=
  if (textLength <? 100)%nat then 0.6
  else if (textLength <? 200)%nat then 0.8
  else if (textLength <? 500)%nat then 0.9
  else 1.

(** Keyword count factor (the [keywordFactor] variable). *)
Definition keywordFactor (keywordCount : nat) : Q :=
  if (keywordCount <? 3)%nat then 0.7
  else if (keywordCount <? 5)%nat then 0.85
  else 1.

(** Topic diversity factor (the [diversityFactor] variable).  The
    product [top0 * 0.7] is exact here, where the source rounds it to
    binary64: the test can differ from the source's when the second
    weight is within a rounding error of 70% of the first. *)
Definition diversityFactor (topicScores : list Q) : Q :=
  if (1 <? length topicScores)%nat then
    let sortedScores := sort (fun a b => b - a) topicScores in
    let topTwo := take 2 sortedScores in
    match topTwo with
    | top0 :: top1 :: _ => if ltb (top0 * 0.7) top1 then 1.1 else 1
    | _ => 1
    end
  else 1.

(** Keyword density before the cap: keywords per 100 words. *)
Definition keywordsPer100Words (keywordCount wordCount : nat) : Q :=
  (ofNat keywordCount / ofNat wordCount) * 100.

(** The value of [score] after the three factors are applied and
    before the adjustment above 85. *)
Definition rawScore (keywords topics : RecordOf Q) (text : string) : Q :=
  let keywordCount := length (Object_keys keywords) in
  let topicScores := Object_values topics in
  let maxTopicScore := Math_max_spread topicScores 0 in
  let textLength := String.length (trim text) in
  let wordCount := length (splitWs (trim text)) in
  let keywordDensity := Math_min (keywordsPer100Words keywordCount wordCount) 20 in
  let topicRelevance := maxTopicScore * 100 in
  let score := (keywordDensity * 2) + (topicRelevance * 0.8) in
  score * lengthFactor textLength * keywordFactor keywordCount
        * diversityFactor topicScores.

(** The early return for very short or empty content. *)
Definition degenerate (keywords : RecordOf Q) (text : string) : bool :=
  let keywordCount := length (Object_keys keywords) in
  let textLength := String.length (trim text) in
  let wordCount := length (splitWs (trim text)) in
  (textLength <? 20)%nat || (keywordCount =? 0)%nat || (wordCount <? 5)%nat.

(** [calculateScore].  The arithmetic is exact here, where the source
    rounds each operation to binary64: the returned integer can differ
    by one from the source's when the score before [Math.round] is
    within a rounding error of a half-way point. *)
Definition calculateScore (keywords topics : RecordOf Q) (text : string) : Q :=
  if degenerate keywords text then 0
  else
    let score := rawScore keywords topics text in
    let score := if ltb 85 score then 85 + (score - 85) * 0.3 else score in
    Math_min 100 (Math_max 0 (Math_round score)).

End Score.

(** *** The content filter *)

Definition commonWords : gset string :=
  list_to_set
    ["the"; "and"; "for"; "are"; "but"; "not"; "you"; "all"; "can"; "had";
     "her"; "was"; "one"; "our"; "out"; "day"; "get"; "has"; "him"; "his";
     "how"; "man"; "new"; "now"; "old"; "see"; "two"; "way"; "who"; "boy";
     "did"; "its"; "let"; "put"; "say"; "she"; "too"; "use"].

(** The predicate of the [filter] call that builds [meaningfulKeywords]. *)
Definition meaningfulKeyword (kw : string) : bool :=
  (2 <? String.length kw)%nat
  && negb (bool_decide (toLowerCase kw ∈ commonWords))
  && negb (isNumeric kw).

Definition isMeaningfulContent (text : string) (keywords : RecordOf Q) : bool :=
  let lowerText := toLowerCase text in
  if includes lowerText "lorem ipsum"
     || includes lowerText "sample text"
     || includes lowerText "placeholder" then false
  else if (String.length (trim text) <? 10)%nat then false
  else
    let meaningfulKeywords := filter (fun kw => meaningfulKeyword kw = true) (Object_keys keywords) in
    let words := splitWs (toLowerCase text) in
    let uniqueWords : gset string := list_to_set words in
    let repetitionRatio := (ofNat (size uniqueWords) / ofNat (length words))%Q in
    if ltb repetitionRatio 0.5 && (10 <? length words)%nat then false
    else (0 <? length meaningfulKeywords)%nat.

(** *** The request handler *)

Inductive Response :=
| ErrorResponse (error : string) (status : nat)
| InsertResponse (updatedText : string)
| RejectResponse (keywords : list string) (score : Q) (scoreCategory : string)
                 (topic : string) (message : string)
| AnalysisResponse (keywords : list string) (score : Q) (scoreCategory : string)
                   (topic : string) (topicScore : Q)
                   (totalKeywords textLength wordCount : nat).

(** The banding of a score into its category (the [if] chain that sets
    [scoreCategory]). *)
Definition categoryOf (score : Q) : string :=
  if geb score 75 then "high"
  else if geb score 50 then "medium"
  else if geb score 25 then "low"
  else "very-low".

(** The handler from the Filter on: what it answers once the extraction
    service has returned [keywords] and [topics] for [trimmedText]. *)
Definition analyze (trimmedText : string) (keywords topics : RecordOf Q) : Response :=
  if negb (isMeaningfulContent trimmedText keywords) then
    RejectResponse [] 0 "low" "No meaningful content"
                   "Text seems to be placeholder or lacks SEO value."
  else
    let keywordArray :=
      map fst (sort (fun a b => snd b - snd a)%Q (Object_entries keywords)) in
    let sortedTopics := sort (fun a b => snd b - snd a)%Q (Object_entries topics) in
    let topTopic := match sortedTopics with t :: _ => fst t | [] => "general" end in
    let score := calculateScore keywords topics trimmedText in
    let scoreCategory := categoryOf score in
    AnalysisResponse keywordArray score scoreCategory topTopic
      (match sortedTopics with t :: _ => snd t | [] => 0%Q end)
      (length keywordArray) (String.length trimmedText)
      (length (splitWs trimmedText)).

(** The decoded body of a request: the [text] field ([None] when absent
    or not a string) and the [insertKeyword] field. *)
Record Body := {
  body_text : option string;
  body_insertKeyword : option string
}.

(** A string is truthy when it is not empty. *)
Definition truthy (s : option string) : bool :=
  match s with
  | Some s => negb (String.eqb s EmptyString)
  | None => false
  end.

(** [POST].  The request is its destructured body, [None] when
    [req.json()] throws and when it yields [null], which the
    destructuring cannot read.  The environment gives the API key;
    [fetchTwinword], from the key and the trimmed text, stands for the
    call to the extraction service and the decoding of its answer,
    [None] when either throws.  What throws is caught and answered by
    the last error response. *)
Definition POST (apiKey : option string)
    (fetchTwinword : string -> string -> option TwinwordResponse)
    (req : option Body) : Response :=
  match req with
  | None => ErrorResponse "Unexpected server error." 500
  | Some body =>
  match body_text body with
  | None => ErrorResponse "Please enter valid text." 400
  | Some text =>
      if negb (truthy (Some text)) || negb (truthy (Some (trim text))) then
        ErrorResponse "Please enter valid text." 400
      else
        let trimmedText := trim text in
        if truthy (body_insertKeyword body) then
          InsertResponse
            (insertKeyword trimmedText (default EmptyString (body_insertKeyword body)))
        else
          match (if truthy apiKey then apiKey else None) with
          | None => ErrorResponse "Missing Twinword API key." 500
          | Some key =>
              match fetchTwinword key trimmedText with
              | None => ErrorResponse "Unexpected server error." 500
              | Some data =>
                  if negb (String.eqb (result_code data) "200") then
                    ErrorResponse "Topic not found or irrelevant." 500
                  else
                    let keywords := default [] (keyword data) in
                    let topics := default [] (topic data) in
                    analyze trimmedText keywords topics
              end
          end
  end
  end.

(** ** app/page.tsx *)

Module HomePage.

Definition getScoreColor (score : Q) (category : string) : string :=
  if geb score 70 || String.eqb category "high" then "text-green-600"
  else if geb score 40 || String.eqb category "medium" then "text-yellow-600"
  else "text-red-600".

Definition getScoreBadge (score : Q) (category : string) : string :=
  if geb score 70 || String.eqb category "high" then "bg-green-100 text-green-800"
  else if geb score 40 || String.eqb category "medium" then "bg-yellow-100 text-yellow-800"
  else "bg-red-100 text-red-800".

(** What the page reads of an answer of [/api/analyze]: the status
    ([Response.json] answers 200 unless a status is given), [res.ok],
    and the fields [error] and [updatedText] of the decoded body. *)
Definition status (res : Response) : nat :=
  match res with
  | ErrorResponse _ status => status
  | _ => 200
  end.

Definition ok (res : Response) : bool :=
  (200 <=? status res)%nat && (status res <=? 299)%nat.

Definition errorOf (data : Response) : option string :=
  match data with
  | ErrorResponse error _ => Some error
  | _ => None
  end.

Definition updatedTextOf (data : Response) : option string :=
  match data with
  | InsertResponse updatedText => Some updatedText
  | _ => None
  end.

(** [a || b] on a string that may be undefined. *)
Definition orElse (a : option string) (b : string) : string :=
  if truthy a then default b a else b.

(** The state of the page: the four [useState] cells.  The text is
    [None] when it has been set to [undefined]. *)
Record State := {
  text : option string;
  results : option Response;
  loading : bool;
  error : option string
}.

(** [analyzeText].  [fetch] is the request to [/api/analyze] with the
    decoded answer, [None] when the request or the decoding throws.  The
    result is the state once the function has run, [None] when
    [text.trim()] throws because the text is undefined. *)
Definition analyzeText (fetch : Body -> option Response) (st : State) : option State :=
  let st := {| text := text st; results := None; loading := loading st; error := None |} in
  match text st with
  | None => None
  | Some t =>
      if negb (truthy (Some (trim t))) then
        Some {| text := text st; results := results st; loading := loading st;
                error := Some "Please enter some text before analyzing." |}
      else
        match fetch {| body_text := text st; body_insertKeyword := None |} with
        | Some res =>
            if negb (ok res) then
              Some {| text := text st; results := results st; loading := false;
                      error := Some (orElse (errorOf res)
                                       "Failed to analyze text. Please try again.") |}
            else
              Some {| text := text st; results := Some res; loading := false;
                      error := error st |}
        | None =>
            Some {| text := text st; results := results st; loading := false;
                    error := Some "Something went wrong. Please check your internet connection and try again." |}
        end
  end.

(** The [insertKeyword] handler of the page (the click on a keyword). *)
Definition insertKeyword (fetch : Body -> option Response) (st : State)
    (keyword : string) : State :=
  match fetch {| body_text := text st; body_insertKeyword := Some keyword |} with
  | Some res =>
      if negb (ok res) then
        {| text := text st; results := results st; loading := loading st;
           error := Some (orElse (errorOf res) "Failed to insert keyword.") |}
      else
        {| text := updatedTextOf res; results := None; loading := loading st;
           error := None |}
  | None =>
      {| text := text st; results := results st; loading := loading st;
         error := Some "Failed to insert keyword. Please try again." |}
  end.

(** The tips panel is rendered when the score is below 70. *)
Definition showsTips (score : Q) : bool := ltb score 70.

End HomePage.

(** ** Vocabulary of the specification *)

(** [occurs c s]: the character [c] occurs in [s]. *)
Fixpoint occurs (c : ascii) (s : string) : bool :=
  match s with
  | EmptyString => false
  | String d s' => Ascii.eqb d c || occurs c s'
  end.

(** The segments the Inserter rejoins: the keyword, after a space, at
    the end of the first segment, the other segments as they are. *)
Definition withKeyword (keyword : string) (segments : list string) : list string :=
  match segments with
  | [] => []
  | s0 :: rest => (s0 +:+ " " +:+ keyword) :: rest
  end.

(** What follows the first segment in a joined sequence: nothing, or
    the separator and the other segments joined. *)
Definition afterFirst (sep : string) (rest : list string) : string :=
  match rest with
  | [] => EmptyString
  | _ :: _ => sep +:+ join sep rest
  end.

(** Names for two steps of [calculateScore]: the base score (twice the
    capped density plus the topic part) for a keyword count, a word
    count and the topic weights, and the adjustment above 85. *)
Definition baseOf (keywordCount wordCount : nat) (topicScores : list Q) : Q :=
  ((Math_min (keywordsPer100Words keywordCount wordCount) 20 * 2)
   + (Math_max_spread topicScores 0 * 100 * 0.8))%Q.

Definition adjust (score : Q) : Q :=
  if ltb 85 score then (85 + (score - 85) * 0.3)%Q else score.

(** The four rejection conditions of the Filter, in the words of the
    specification. *)
Section Rejections.
Variables (text : string) (keywords : RecordOf Q).

(** The lower-cased text contains one of the placeholder phrases. *)
Definition placeholderText : Prop :=
  includes (toLowerCase text) "lorem ipsum" = true \/
  includes (toLowerCase text) "sample text" = true \/
  includes (toLowerCase text) "placeholder" = true.

(** The trimmed text has fewer than 10 characters. *)
Definition tooShort : Prop := (String.length (trim text) < 10)%nat.

(** The tokens: the lower-cased text split on white space. *)
Definition tokens : list string := splitWs (toLowerCase text).

(** Fewer than half of the tokens are distinct, and there are more
    than 10 tokens. *)
Definition repetitive : Prop :=
  (ofNat (length (remove_dups tokens)) / ofNat (length tokens) < 0.5)%Q /\
  (10 < length tokens)%nat.

(** Every keyword is excluded: it is a stop word up to case, or has at
    most 2 characters, or is purely numeric. *)
Definition noKeywordLeft : Prop :=
  forall kw : string,
    kw ∈ Object_keys keywords ->
    toLowerCase kw ∈ commonWords \/
    (String.length kw <= 2)%nat \/
    isNumeric kw = true.

End Rejections.

(** The score and the category a response carries, when it has them. *)
Definition responseScore (r : Response) : option Q :=
  match r with
  | RejectResponse _ score _ _ _ => Some score
  | AnalysisResponse _ score _ _ _ _ _ _ => Some score
  | _ => None
  end.

Definition responseCategory (r : Response) : option string :=
  match r with
  | RejectResponse _ _ scoreCategory _ _ => Some scoreCategory
  | AnalysisResponse _ _ scoreCategory _ _ _ _ _ => Some scoreCategory
  | _ => None
  end.

(** What [req.json()] gives [POST]: it throws; or it yields [null], which
    the destructuring of the body cannot read, so that it throws; or it
    yields another value ([JsonValue]), whose fields [text] and
    [insertKeyword] the destructuring reads into a [Body] (a number, a
    string or an array has neither field). *)
Inductive Decoded :=
| JsonThrows
| JsonNull
| JsonValue (body : Body).

Definition readBody (decoded : Decoded) : option Body :=
  match decoded with
  | JsonValue body => Some body
  | JsonThrows | JsonNull => None
  end.

(** The answers of [POST], case by case, in the order in which the
    handler decides them. *)
Section Outcome.
Variables (apiKey : option string)
          (fetchTwinword : string -> string -> option TwinwordResponse).

Inductive POST_outcome : option Body -> Response -> Prop :=
| Undecodable :
    POST_outcome None (ErrorResponse "Unexpected server error." 500)
| NoText ik :
    POST_outcome (Some {| body_text := None; body_insertKeyword := ik |})
                 (ErrorResponse "Please enter valid text." 400)
| BlankText text ik :
    trim text = EmptyString ->
    POST_outcome (Some {| body_text := Some text; body_insertKeyword := ik |})
                 (ErrorResponse "Please enter valid text." 400)
| Inserted text kw :
    trim text <> EmptyString -> kw <> EmptyString ->
    POST_outcome (Some {| body_text := Some text; body_insertKeyword := Some kw |})
                 (InsertResponse (insertKeyword (trim text) kw))
| MissingKey text ik :
    trim text <> EmptyString -> truthy ik = false -> truthy apiKey = false ->
    POST_outcome (Some {| body_text := Some text; body_insertKeyword := ik |})
                 (ErrorResponse "Missing Twinword API key." 500)
| ServiceThrows text ik key :
    trim text <> EmptyString -> truthy ik = false ->
    apiKey = Some key -> key <> EmptyString ->
    fetchTwinword key (trim text) = None ->
    POST_outcome (Some {| body_text := Some text; body_insertKeyword := ik |})
                 (ErrorResponse "Unexpected server error." 500)
| ServiceRefuses text ik key data :
    trim text <> EmptyString -> truthy ik = false ->
    apiKey = Some key -> key <> EmptyString ->
    fetchTwinword key (trim text) = Some data ->
    result_code data <> "200" ->
    POST_outcome (Some {| body_text := Some text; body_insertKeyword := ik |})
                 (ErrorResponse "Topic not found or irrelevant." 500)
| Analyzed text ik key data :
    trim text <> EmptyString -> truthy ik = false ->
    apiKey = Some key -> key <> EmptyString ->
    fetchTwinword key (trim text) = Some data ->
    result_code data = "200" ->
    POST_outcome (Some {| body_text := Some text; body_insertKeyword := ik |})
                 (analyze (trim text) (default [] (keyword data))
                          (default [] (topic data))).

End Outcome.

(** The page served by the handler: a request of the page is answered
    by [POST] on the body the page sends. *)
Definition served (apiKey : option string)
    (fetchTwinword : string -> string -> option TwinwordResponse)
    (body : Body) : option Response :=
  Some (POST apiKey fetchTwinword (Some body)).

(** An input on which the score before the adjustment above 85 is
    exactly 100: a text of 120 characters and 20 words, five keywords
    (the density 25 is capped to 20) and one topic of weight 1.0625. *)
Module Sample.
Definition text : string :=
  "Fresh coffee beans roasted daily deliver rich aroma, smooth flavor and lasting energy for busy mornings at home or work.".
Definition keywords : RecordOf Q :=
  [("coffee", 0.9%Q); ("beans", 0.8%Q); ("aroma", 0.7%Q);
   ("flavor", 0.6%Q); ("energy", 0.5%Q)].
Definition topics : RecordOf Q := [("food", 1.0625%Q)].
End Sample.

(** The arithmetic of [calculateScore] in binary64, the number format
    of the source, for checking a value of the rational model on given
    counts and factors: the score before the adjustment above 85, and
    the adjustment. *)
Module Binary64.

#[warnings="-inexact-float"]
Definition rawScore (keywordCount wordCount maxTopicScore
                     lengthFactor keywordFactor diversityFactor : float) : float :=
  let perHundred := ((keywordCount / wordCount) * 100)%float in
  let keywordDensity := if (perHundred <? 20)%float then perHundred else 20%float in
  let topicRelevance := (maxTopicScore * 100)%float in
  let score := ((keywordDensity * 2) + (topicRelevance * 0.8))%float in
  (score * lengthFactor * keywordFactor * diversityFactor)%float.

#[warnings="-inexact-float"]
Definition adjust (score : float) : float :=
  if (85 <? score)%float then (85 + (score - 85) * 0.3)%float else score.

End Binary64.

(** * Properties *)

(** ** Strings *)

Section StringFacts.

Lemma append_nil_l (t : string) : EmptyString +:+ t = t.
Proof. reflexivity. Qed.

Lemma append_cons (c : ascii) (s t : string) :
  String c s +:+ t = String c (s +:+ t).
Proof. reflexivity. Qed.

Lemma append_empty_r (s : string) : s +:+ EmptyString = s.
Proof.
  induction s as [|c s IH]; [reflexivity |].
  now rewrite append_cons, IH.
Qed.

Lemma append_assoc (s t u : string) : (s +:+ t) +:+ u = s +:+ (t +:+ u).
Proof.
  induction s as [|c s IH]; [reflexivity |].
  now rewrite !append_cons, IH.
Qed.

Lemma prefix_empty (s : string) : String.prefix EmptyString s = true.
Proof. destruct s; reflexivity. Qed.

Lemma prefix_refl (s : string) : String.prefix s s = true.
Proof.
  induction s as [|c s IH]; simpl; [reflexivity |].
  destruct (ascii_dec c c); [exact IH | congruence].
Qed.

Lemma prefix_append (k s t : string) :
  String.prefix k s = true -> String.prefix k (s +:+ t) = true.
Proof.
  revert s; induction k as [|c k IH]; intros s H.
  - apply prefix_empty.
  - destruct s as [|d s]; [discriminate H |].
    rewrite append_cons. revert H. simpl.
    destruct (ascii_dec c d); [apply IH | discriminate].
Qed.

Lemma includes_unfold (s t : string) :
  includes s t =
  String.prefix t s ||
  match s with
  | EmptyString => false
  | String _ s' => includes s' t
  end.
Proof. destruct s; reflexivity. Qed.

Lemma includes_self (s : string) : includes s s = true.
Proof. now rewrite includes_unfold, prefix_refl. Qed.

(** A string that occurs in [s] occurs in [s +:+ t] and in [t +:+ s]. *)
Lemma includes_append_l (s t k : string) :
  includes s k = true -> includes (s +:+ t) k = true.
Proof.
  induction s as [|c s IH]; intros H.
  - rewrite append_nil_l. rewrite includes_unfold, orb_false_r in H.
    destruct k; [| simpl in H; discriminate].
    now rewrite includes_unfold, prefix_empty.
  - rewrite append_cons. rewrite includes_unfold in H.
    rewrite includes_unfold.
    apply orb_true_iff in H as [H|H].
    + apply (prefix_append _ _ t) in H. rewrite append_cons in H.
      now rewrite H.
    + rewrite (IH H). apply orb_true_r.
Qed.

Lemma includes_append_r (s t k : string) :
  includes t k = true -> includes (s +:+ t) k = true.
Proof.
  induction s as [|c s IH]; intros H; [exact H |].
  rewrite append_cons, includes_unfold, (IH H). apply orb_true_r.
Qed.

(** [includes] with a one-character string is [occurs]. *)
Lemma includes_char (c : ascii) (s : string) :
  includes s (String c EmptyString) = occurs c s.
Proof.
  induction s as [|d s IH]; simpl; [reflexivity |].
  rewrite IH.
  destruct (ascii_dec c d) as [->|Hne].
  - now rewrite prefix_empty, Ascii.eqb_refl.
  - destruct (Ascii.eqb_spec d c); [congruence | reflexivity].
Qed.

Lemma occurs_append (c : ascii) (s t : string) :
  occurs c (s +:+ t) = occurs c s || occurs c t.
Proof.
  induction s as [|d s IH]; [reflexivity |].
  rewrite append_cons. simpl. now rewrite IH, orb_assoc.
Qed.

(** *** Splitting on a character *)

(** The segment in progress is a prefix of the first segment. *)
Lemma split_from_cur (sep : ascii) (cur s : string) :
  split_from sep cur s = alter (fun h => cur +:+ h) 0%nat (split sep s).
Proof.
  unfold split. revert cur; induction s as [|c s IH]; intros cur; simpl.
  - now rewrite append_empty_r.
  - destruct (Ascii.eqb c sep); simpl.
    + now rewrite append_empty_r.
    + rewrite append_nil_l.
      rewrite (IH (cur +:+ String c EmptyString)), (IH (String c EmptyString)).
      generalize (split_from sep EmptyString s) as l.
      intros [|h t]; simpl; [reflexivity |].
      now rewrite append_assoc.
Qed.

Lemma split_from_cons (sep : ascii) (cur s : string) :
  exists s0 rest, split_from sep cur s = s0 :: rest.
Proof.
  revert cur; induction s as [|c s IH]; intros cur; simpl.
  - now exists cur, [].
  - destruct (Ascii.eqb c sep); [now exists cur, (split_from sep EmptyString s) |].
    apply IH.
Qed.

Lemma split_cons (sep : ascii) (s : string) :
  exists s0 rest, split sep s = s0 :: rest.
Proof. apply split_from_cons. Qed.

Lemma split_length (sep : ascii) (s : string) : (1 <= length (split sep s))%nat.
Proof. destruct (split_cons sep s) as (s0 & rest & ->). simpl. lia. Qed.

(** Without a separator there is one segment, the whole string. *)
Lemma split_from_no_sep (sep : ascii) (cur s : string) :
  occurs sep s = false -> split_from sep cur s = [cur +:+ s].
Proof.
  revert cur; induction s as [|c s IH]; intros cur H; simpl in *.
  - now rewrite append_empty_r.
  - apply orb_false_iff in H as [Hc Hs]. rewrite Hc.
    rewrite (IH _ Hs). now rewrite append_assoc.
Qed.

Lemma split_no_sep (sep : ascii) (s : string) :
  occurs sep s = false -> split sep s = [s].
Proof. intros H. unfold split. now rewrite split_from_no_sep. Qed.

(** A leading part without separator joins the segment in progress. *)
Lemma split_from_append (sep : ascii) (cur a s : string) :
  occurs sep a = false ->
  split_from sep cur (a +:+ s) = split_from sep (cur +:+ a) s.
Proof.
  revert cur; induction a as [|c a IH]; intros cur H; simpl in *.
  - now rewrite append_empty_r.
  - apply orb_false_iff in H as [Hc Ha]. rewrite Hc.
    rewrite (IH _ Ha). now rewrite append_assoc.
Qed.

(** No segment holds the separator. *)
Lemma split_from_sep_free (sep : ascii) (cur s : string) :
  occurs sep cur = false ->
  Forall (fun seg => occurs sep seg = false) (split_from sep cur s).
Proof.
  revert cur; induction s as [|c s IH]; intros cur H; simpl.
  - now constructor.
  - destruct (Ascii.eqb c sep) eqn:E.
    + constructor; [exact H | now apply IH].
    + apply IH. rewrite occurs_append, H. simpl. now rewrite E.
Qed.

(** Joining separator-free segments and splitting again gives them back. *)
Lemma split_join (sep : ascii) (s0 : string) (rest : list string) :
  Forall (fun seg => occurs sep seg = false) (s0 :: rest) ->
  split sep (join (String sep EmptyString) (s0 :: rest)) = s0 :: rest.
Proof.
  revert s0; induction rest as [|s1 rest IH]; intros s0 H.
  - simpl. apply split_no_sep. now inversion H.
  - inversion H as [|? ? H0 Hrest]; subst.
    change (join (String sep EmptyString) (s0 :: s1 :: rest))
      with (s0 +:+ String sep (join (String sep EmptyString) (s1 :: rest))).
    unfold split. rewrite split_from_append by exact H0.
    simpl. rewrite Ascii.eqb_refl. f_equal. now apply IH.
Qed.

Lemma join_cons (sep x y : string) (rest : list string) :
  join sep (x :: y :: rest) = x +:+ sep +:+ join sep (y :: rest).
Proof. reflexivity. Qed.

(** Joining the segments of a string gives the string back. *)
Lemma join_split_from (sep : ascii) (cur s : string) :
  join (String sep EmptyString) (split_from sep cur s) = cur +:+ s.
Proof.
  revert cur; induction s as [|c s IH]; intros cur; simpl.
  - now rewrite append_empty_r.
  - destruct (Ascii.eqb_spec c sep) as [->|Hne].
    + destruct (split_from_cons sep EmptyString s) as (h & t & E).
      specialize (IH EmptyString). rewrite E in *.
      now rewrite join_cons, IH.
    + rewrite IH. now rewrite append_assoc.
Qed.

Lemma join_split (sep : ascii) (s : string) :
  join (String sep EmptyString) (split sep s) = s.
Proof. unfold split. now rewrite join_split_from. Qed.

End StringFacts.

(** ** The keyword inserter *)

(** The two outcomes of [insertKeyword], by the substring guard. *)
Lemma insertKeyword_present (text keyword : string) :
  includes text keyword = true -> insertKeyword text keyword = text.
Proof. intros H. unfold insertKeyword. now rewrite H. Qed.

Lemma insertKeyword_absent (text keyword : string) :
  includes text keyword = false ->
  insertKeyword text keyword = join "." (withKeyword keyword (split "." text)).
Proof.
  intros H. unfold insertKeyword. rewrite H.
  destruct (split_cons "." text) as (s0 & rest & ->). reflexivity.
Qed.

(** After an insertion the keyword occurs in the text, whatever it is. *)
Lemma insertKeyword_includes (text keyword : string) :
  includes (insertKeyword text keyword) keyword = true.
Proof.
  destruct (includes text keyword) eqn:H.
  - now rewrite insertKeyword_present.
  - rewrite insertKeyword_absent by exact H.
    destruct (split_cons "." text) as (s0 & rest & ->). simpl.
    assert (Hk : includes (s0 +:+ " " +:+ keyword) keyword = true).
    { apply includes_append_r, (includes_append_r " "), includes_self. }
    destruct rest; [exact Hk | now apply includes_append_l].
Qed.

(** X2.  A second insertion of the same keyword changes nothing,
    whatever the text and the keyword: [insertKeyword] is idempotent
    without any condition. *)
Corollary insertKeyword_twice (text keyword : string) :
  insertKeyword (insertKeyword text keyword) keyword = insertKeyword text keyword.
Proof. apply insertKeyword_present, insertKeyword_includes. Qed.

(** X5.  When the keyword does not occur in the text and has no full
    stop itself, splitting the result on the full stop gives the
    segments of the text with the keyword appended to the first: the
    number of segments does not change. *)
Lemma insertKeyword_resplit (text keyword : string) :
  includes text keyword = false ->
  occurs "." keyword = false ->
  split "." (insertKeyword text keyword) = withKeyword keyword (split "." text).
Proof.
  intros Habs Hdot. rewrite insertKeyword_absent by exact Habs.
  pose proof (split_from_sep_free "." EmptyString text eq_refl) as Hfree.
  fold (split "." text) in Hfree.
  destruct (split_cons "." text) as (s0 & rest & E). rewrite E in *.
  inversion Hfree as [|? ? H0 Hrest]; subst.
  apply split_join. constructor; [| exact Hrest].
  now rewrite !occurs_append, H0, Hdot.
Qed.

(** C6.  [insertKeyword] returns its text unchanged when the keyword
    already occurs in it (case-sensitive substring test), and a second
    application with the same keyword changes nothing when the keyword
    occurs in the result of the first. *)
Theorem insertKeyword_guard_idempotent (text keyword : string) :
  (includes text keyword = true -> insertKeyword text keyword = text) /\
  (includes (insertKeyword text keyword) keyword = true ->
   insertKeyword (insertKeyword text keyword) keyword = insertKeyword text keyword).
Proof.
  split; intros H.
  - now apply insertKeyword_present.
  - now apply insertKeyword_present.
Qed.

Lemma insertKeyword_guard_idempotent_witness :
  insertKeyword "I like cats. They are great." "cats" = "I like cats. They are great." /\
  insertKeyword (insertKeyword "I like cats. They are great." "feline") "feline"
  = insertKeyword "I like cats. They are great." "feline".
Proof.
  split.
  - apply (proj1 (insertKeyword_guard_idempotent "I like cats. They are great." "cats")).
    reflexivity.
  - apply (proj2 (insertKeyword_guard_idempotent "I like cats. They are great." "feline")).
    reflexivity.
Defined.

(** The rejoined segments split again into themselves when the keyword
    has no full stop. *)
Lemma split_withKeyword (text keyword : string) :
  occurs "." keyword = false ->
  split "." (join "." (withKeyword keyword (split "." text)))
  = withKeyword keyword (split "." text).
Proof.
  intros Hdot.
  pose proof (split_from_sep_free "." EmptyString text eq_refl) as Hfree.
  fold (split "." text) in Hfree.
  destruct (split_cons "." text) as (s0 & rest & E). rewrite E in *.
  inversion Hfree as [|? ? H0 Hrest]; subst.
  apply split_join. constructor; [| exact Hrest].
  now rewrite !occurs_append, H0, Hdot.
Qed.

(** C7, as the code has it.  For a text in which the keyword does not
    occur, with segments [s0, s1, ..., sn] between full stops (the
    segments hold no full stop and joined by full stops they give the
    text), [insertKeyword] returns [s0 + " " + keyword, s1, ..., sn]
    joined by full stops.  When the keyword has no full stop itself, the
    returned text splits into exactly these segments: as many segments
    as before, all but the first unchanged.  A text without a full stop
    is one segment, and the result is the text, a space and the
    keyword. *)
Theorem insertKeyword_segments (text keyword : string) :
  includes text keyword = false ->
  exists s0 rest,
    split "." text = s0 :: rest /\
    text = join "." (s0 :: rest) /\
    Forall (fun seg => occurs "." seg = false) (s0 :: rest) /\
    insertKeyword text keyword = join "." ((s0 +:+ " " +:+ keyword) :: rest) /\
    (occurs "." keyword = false ->
     split "." (insertKeyword text keyword) = (s0 +:+ " " +:+ keyword) :: rest /\
     length (split "." (insertKeyword text keyword)) = length (split "." text) /\
     forall i : nat,
       split "." (insertKeyword text keyword) !! S i = split "." text !! S i) /\
    (occurs "." text = false ->
     insertKeyword text keyword = text +:+ " " +:+ keyword).
Proof.
  intros Habs.
  pose proof (join_split "." text) as Hjoin.
  pose proof (split_from_sep_free "." EmptyString text eq_refl) as Hfree.
  fold (split "." text) in Hfree.
  pose proof (split_withKeyword text keyword) as Hre.
  rewrite <- (insertKeyword_absent _ _ Habs) in Hre.
  destruct (split_cons "." text) as (s0 & rest & E).
  exists s0, rest. rewrite E in *. simpl withKeyword in Hre.
  split; [reflexivity |]. split; [now symmetry |]. split; [exact Hfree |].
  split; [now rewrite (insertKeyword_absent _ _ Habs), E |].
  split.
  - intros Hdot. rewrite (Hre Hdot). now repeat split.
  - intros Hdot. rewrite (insertKeyword_absent _ _ Habs).
    rewrite (split_no_sep _ _ Hdot). reflexivity.
Qed.

Lemma insertKeyword_segments_witness :
  split "." "I like cats. They are great." = ["I like cats"; " They are great"; ""] /\
  split "." (insertKeyword "I like cats. They are great." "feline")
  = ["I like cats feline"; " They are great"; ""].
Proof.
  destruct (insertKeyword_segments "I like cats. They are great." "feline" eq_refl)
    as (s0 & rest & Hs & _ & _ & _ & Hk & _).
  destruct (Hk eq_refl) as (Hsplit & _ & _).
  split; [reflexivity |].
  rewrite Hsplit. vm_compute in Hs. injection Hs as <- <-. reflexivity.
Defined.

(** A keyword with a full stop adds a segment: the text "one. two" has
    two segments, and with the keyword "a.b" inserted it has three. *)
Lemma insertKeyword_dotted_keyword_adds_segment :
  includes "one. two" "a.b" = false /\
  split "." "one. two" = ["one"; " two"] /\
  insertKeyword "one. two" "a.b" = "one a.b. two" /\
  split "." (insertKeyword "one. two" "a.b") = ["one a"; "b"; " two"] /\
  length (split "." (insertKeyword "one. two" "a.b"))
  <> length (split "." "one. two").
Proof. repeat split. vm_compute. discriminate. Qed.

(** The single-segment example of the specification. *)
Example insertKeyword_no_periods :
  insertKeyword "no periods here" "x" = "no periods here x".
Proof. reflexivity. Qed.

(** The example of the specification with two sentences. *)
Example insertKeyword_cats :
  insertKeyword "I like cats. They are great." "feline"
  = "I like cats feline. They are great.".
Proof. reflexivity. Qed.

(** C10.  Splitting a text on the full stop never gives the empty
    sequence, so the branch of [insertKeyword] for an empty split is
    never taken: a call returns the text unchanged (substring guard) or
    the rejoined segments with the keyword appended to the first. *)
Theorem insertKeyword_empty_split_unreachable (text keyword : string) :
  split "." text <> [] /\
  (length (split "." text) =? 0)%nat = false /\
  (includes text keyword = true /\ insertKeyword text keyword = text \/
   includes text keyword = false /\
   insertKeyword text keyword
   = join "." (alter (fun s => s +:+ " " +:+ keyword) 0%nat (split "." text))).
Proof.
  destruct (split_cons "." text) as (s0 & rest & E).
  split; [now rewrite E |]. split; [now rewrite E |].
  destruct (includes text keyword) eqn:H.
  - left. split; [reflexivity | now apply insertKeyword_present].
  - right. split; [reflexivity |].
    rewrite (insertKeyword_absent _ _ H), E. reflexivity.
Qed.

(** ** The score calculator *)

Section ScoreFacts.
Open Scope Q_scope.

(** *** Integers among the rationals *)

Lemma Qcompare_inject_Z (a b : Z) :
  (inject_Z a ?= inject_Z b) = (a ?= b)%Z.
Proof. unfold Qcompare. simpl. now rewrite !Z.mul_1_r. Qed.

Lemma Math_max_inject_Z (a b : Z) :
  Math_max (inject_Z a) (inject_Z b) = inject_Z (Z.max a b).
Proof.
  unfold Math_max, Qmax, GenericMinMax.gmax, Z.max.
  rewrite Qcompare_inject_Z. now destruct (a ?= b)%Z.
Qed.

Lemma Math_min_inject_Z (a b : Z) :
  Math_min (inject_Z a) (inject_Z b) = inject_Z (Z.min a b).
Proof.
  unfold Math_min, Qmin, GenericMinMax.gmin, Z.min.
  rewrite Qcompare_inject_Z. now destruct (a ?= b)%Z.
Qed.

(** The last line of [calculateScore] yields an integer of [0, 100]. *)
Lemma clamp_round (x : Q) :
  exists n : Z,
    Math_min 100 (Math_max 0 (Math_round x)) = inject_Z n /\ (0 <= n <= 100)%Z.
Proof.
  exists (Z.min 100 (Z.max 0 (Qfloor (x + (1 # 2))))). split; [| lia].
  unfold Math_round.
  change 100 with (inject_Z 100). change 0 with (inject_Z 0).
  now rewrite Math_max_inject_Z, Math_min_inject_Z.
Qed.

Lemma ltb_lt (x y : Q) : ltb x y = true <-> x < y.
Proof.
  unfold ltb. rewrite negb_true_iff, <- not_true_iff_false, Qle_bool_iff.
  split; [apply Qnot_le_lt | apply Qlt_not_le].
Qed.

Lemma ltb_ge (x y : Q) : ltb x y = false <-> y <= x.
Proof. unfold ltb. now rewrite negb_false_iff, Qle_bool_iff. Qed.

(** The score as a number: the early return or the clamped rounding. *)
Lemma calculateScore_integer (keywords topics : RecordOf Q) (text : string) :
  exists n : Z,
    calculateScore keywords topics text = inject_Z n /\ (0 <= n <= 100)%Z.
Proof.
  unfold calculateScore. destruct (degenerate keywords text).
  - exists 0%Z. split; [reflexivity | lia].
  - apply clamp_round.
Qed.

End ScoreFacts.

(** C1.  [calculateScore] returns exactly 0 when the trimmed text has
    fewer than 20 characters, or the keyword map has no entry, or the
    trimmed text splits on white space into fewer than 5 words. *)
Theorem calculateScore_degenerate (keywords topics : RecordOf Q) (text : string) :
  (String.length (trim text) < 20)%nat \/
  length (Object_keys keywords) = 0%nat \/
  (length (splitWs (trim text)) < 5)%nat ->
  calculateScore keywords topics text = 0%Q.
Proof.
  intros H. unfold calculateScore, degenerate.
  destruct H as [H | [H | H]].
  - apply Nat.ltb_lt in H. now rewrite H.
  - apply Nat.eqb_eq in H. now rewrite H, orb_true_r.
  - apply Nat.ltb_lt in H. now rewrite H, !orb_true_r.
Qed.

Lemma calculateScore_degenerate_witness : calculateScore [] [] "hi" = 0%Q.
Proof. apply calculateScore_degenerate. left. vm_compute. lia. Defined.

(** C2.  With non-negative keyword and topic weights, and any text, the
    value of [calculateScore] is an integer between 0 and 100. *)
Theorem calculateScore_range (keywords topics : RecordOf Q) (text : string) :
  Forall (fun w => (0 <= w)%Q) (Object_values keywords) ->
  Forall (fun w => (0 <= w)%Q) (Object_values topics) ->
  exists n : Z,
    calculateScore keywords topics text = inject_Z n /\ (0 <= n <= 100)%Z.
Proof. intros _ _. apply calculateScore_integer. Qed.

Lemma calculateScore_range_witness :
  exists n : Z,
    calculateScore Sample.keywords Sample.topics Sample.text = inject_Z n /\
    (0 <= n <= 100)%Z.
Proof.
  apply calculateScore_range; unfold Object_values; simpl;
    repeat constructor; discriminate.
Defined.

(** C9.  Two keyword maps with the same number of entries give the same
    score, for every topic map and text: neither the keyword strings nor
    their weights enter the computation. *)
Theorem calculateScore_keyword_count_only
    (keywords1 keywords2 topics : RecordOf Q) (text : string) :
  length (Object_keys keywords1) = length (Object_keys keywords2) ->
  calculateScore keywords1 topics text = calculateScore keywords2 topics text.
Proof.
  intros H. unfold calculateScore, degenerate, rawScore. now rewrite H.
Qed.

Lemma calculateScore_keyword_count_only_witness :
  calculateScore Sample.keywords Sample.topics Sample.text
  = calculateScore
      [("one", 0%Q); ("two", 3%Q); ("12", 0.25%Q); ("a b", 7%Q); ("", 1%Q)]
      Sample.topics Sample.text.
Proof. apply calculateScore_keyword_count_only. reflexivity. Defined.

(** ** The adjustment above 85 *)

(** C3, as the code has it.  On an input that passes the early return
    and whose score before the adjustment above 85 is exactly 100, the
    adjusted score is 85 + 15 * 0.3 = 89.5, which [Math.round] takes to
    90: [calculateScore] returns 90, and so neither 89 nor 100. *)
Theorem calculateScore_raw_100 (keywords topics : RecordOf Q) (text : string) :
  degenerate keywords text = false ->
  (rawScore keywords topics text == 100)%Q ->
  calculateScore keywords topics text = 90%Q /\
  ~ (calculateScore keywords topics text == 100)%Q.
Proof.
  intros Hdeg Hraw.
  enough (H : calculateScore keywords topics text = 90%Q)
    by (rewrite H; split; [reflexivity | discriminate]).
  unfold calculateScore. rewrite Hdeg.
  cbv zeta.
  assert (Hlt : ltb 85 (rawScore keywords topics text) = true).
  { apply ltb_lt. rewrite Hraw. reflexivity. }
  rewrite Hlt. unfold Math_round.
  assert (Hfloor : Qfloor (85 + (rawScore keywords topics text - 85) * 0.3 + (1 # 2)) = 90%Z).
  { rewrite (Qfloor_comp _ (inject_Z 90)); [apply Qfloor_Z |].
    rewrite Hraw. reflexivity. }
  rewrite Hfloor. reflexivity.
Qed.

Lemma calculateScore_raw_100_witness :
  calculateScore Sample.keywords Sample.topics Sample.text = 90%Q /\
  ~ (calculateScore Sample.keywords Sample.topics Sample.text == 100)%Q.
Proof.
  apply calculateScore_raw_100; vm_compute; reflexivity.
Defined.

(** In binary64 too the sample's numbers (5 keywords, 20 words, topic
    weight 1.0625, factors 0.8, 1 and 1) give exactly 100 before the
    adjustment and the tie 89.5 after it. *)
#[warnings="-inexact-float"]
Example sample_binary64 :
  (Binary64.rawScore 5 20 1.0625 0.8 1 1 =? 100)%float = true /\
  (Binary64.adjust (Binary64.rawScore 5 20 1.0625 0.8 1 1) =? 89.5)%float = true.
Proof. split; vm_compute; reflexivity. Qed.

(** The sample input refutes the value 89: it passes the early return,
    its score before the adjustment is 100, and the function returns
    90. *)
Lemma calculateScore_raw_100_not_89 :
  degenerate Sample.keywords Sample.text = false /\
  (rawScore Sample.keywords Sample.topics Sample.text == 100)%Q /\
  calculateScore Sample.keywords Sample.topics Sample.text = 90%Q /\
  ~ (calculateScore Sample.keywords Sample.topics Sample.text == 89)%Q.
Proof.
  repeat split; try (vm_compute; reflexivity).
  vm_compute. discriminate.
Qed.

(** ** Monotonicity in the number of keywords *)

Section Monotone.
Open Scope Q_scope.

Lemma ofNat_le (m n : nat) : (m <= n)%nat -> ofNat m <= ofNat n.
Proof. intros H. unfold ofNat. rewrite <- Zle_Qle. lia. Qed.

Lemma ofNat_pos (n : nat) : (0 < n)%nat -> 0 < ofNat n.
Proof.
  intros H. unfold ofNat. change 0 with (inject_Z 0).
  rewrite <- Zlt_Qlt. lia.
Qed.

Lemma ofNat_nonneg (n : nat) : 0 <= ofNat n.
Proof.
  unfold ofNat. change 0 with (inject_Z 0). rewrite <- Zle_Qle. lia.
Qed.

Lemma Math_max_spread_nonneg (xs : list Q) : 0 <= Math_max_spread xs 0.
Proof.
  induction xs as [|x xs IH]; simpl.
  - apply Qle_refl.
  - eapply Qle_trans; [exact IH | apply Q.le_max_r].
Qed.

Lemma lengthFactor_pos (n : nat) : 0 < lengthFactor n.
Proof.
  unfold lengthFactor.
  destruct (n <? 100)%nat; [reflexivity |].
  destruct (n <? 200)%nat; [reflexivity |].
  destruct (n <? 500)%nat; reflexivity.
Qed.

Lemma diversityFactor_pos (l : list Q) : 0 < diversityFactor l.
Proof.
  unfold diversityFactor.
  destruct (1 <? length l)%nat; [| reflexivity].
  destruct (take 2 (sort _ l)) as [|a [|b t]]; try reflexivity.
  destruct (ltb (a * 0.7) b); reflexivity.
Qed.

Lemma keywordFactor_pos (k : nat) : 0 < keywordFactor k.
Proof.
  unfold keywordFactor.
  destruct (k <? 3)%nat; [reflexivity |].
  destruct (k <? 5)%nat; reflexivity.
Qed.

Lemma keywordFactor_le (k1 k2 : nat) :
  (k1 <= k2)%nat -> keywordFactor k1 <= keywordFactor k2.
Proof.
  intros H. unfold keywordFactor.
  destruct (Nat.ltb_spec k1 3), (Nat.ltb_spec k2 3),
           (Nat.ltb_spec k1 5), (Nat.ltb_spec k2 5);
    try lia; discriminate.
Qed.

Lemma keywordsPer100Words_le (k1 k2 w : nat) :
  (k1 <= k2)%nat ->
  keywordsPer100Words k1 w <= keywordsPer100Words k2 w.
Proof.
  intros H. unfold keywordsPer100Words, Qdiv.
  apply Qmult_le_compat_r; [| discriminate].
  apply Qmult_le_compat_r; [now apply ofNat_le |].
  apply Qinv_le_0_compat, ofNat_nonneg.
Qed.

Lemma keywordsPer100Words_nonneg (k w : nat) : 0 <= keywordsPer100Words k w.
Proof.
  unfold keywordsPer100Words, Qdiv.
  apply Qmult_le_0_compat; [| discriminate].
  apply Qmult_le_0_compat; [apply ofNat_nonneg |].
  apply Qinv_le_0_compat, ofNat_nonneg.
Qed.

Lemma Qmult_le_mono (a b c d : Q) :
  0 <= a -> a <= b -> 0 <= c -> c <= d -> a * c <= b * d.
Proof.
  intros Ha Hab Hc Hcd.
  apply Qle_trans with (b * c).
  - now apply Qmult_le_compat_r.
  - rewrite (Qmult_comm b c), (Qmult_comm b d).
    apply Qmult_le_compat_r; [exact Hcd |].
    now apply Qle_trans with a.
Qed.

Lemma baseOf_nonneg (k w : nat) (l : list Q) : 0 <= baseOf k w l.
Proof.
  unfold baseOf, Math_min.
  pose proof (Math_max_spread_nonneg l) as Hm.
  pose proof (keywordsPer100Words_nonneg k w) as Hd.
  assert (0 <= Qmin (keywordsPer100Words k w) 20)
    by (apply Q.min_glb; [exact Hd | discriminate]).
  lra.
Qed.

Lemma baseOf_le (k1 k2 w : nat) (l : list Q) :
  (k1 <= k2)%nat -> baseOf k1 w l <= baseOf k2 w l.
Proof.
  intros H. unfold baseOf, Math_min.
  pose proof (Q.min_le_compat_r _ _ 20 (keywordsPer100Words_le k1 k2 w H)).
  lra.
Qed.

(** The adjustment above 85 keeps the order. *)
Lemma adjust_le (x y : Q) : x <= y -> adjust x <= adjust y.
Proof.
  intros H. unfold adjust.
  destruct (ltb 85 x) eqn:Hx, (ltb 85 y) eqn:Hy;
    try apply ltb_lt in Hx; try apply ltb_ge in Hx;
    try apply ltb_lt in Hy; try apply ltb_ge in Hy; lra.
Qed.

Lemma Math_round_le (x y : Q) : x <= y -> Math_round x <= Math_round y.
Proof.
  intros H. unfold Math_round. rewrite <- Zle_Qle.
  apply Qfloor_resp_le. lra.
Qed.

Lemma finish_le (x y : Q) :
  x <= y ->
  Math_min 100 (Math_max 0 (Math_round (adjust x)))
  <= Math_min 100 (Math_max 0 (Math_round (adjust y))).
Proof.
  intros H. unfold Math_min, Math_max.
  apply Q.min_le_compat_l, Q.max_le_compat_l, Math_round_le, adjust_le, H.
Qed.

Lemma calculateScore_nonneg (keywords topics : RecordOf Q) (text : string) :
  0 <= calculateScore keywords topics text.
Proof.
  destruct (calculateScore_integer keywords topics text) as (n & -> & Hn).
  change 0 with (inject_Z 0). rewrite <- Zle_Qle. lia.
Qed.

(** More keywords never lower the score, capped density or not. *)
Lemma calculateScore_le (keywords1 keywords2 topics : RecordOf Q) (text : string) :
  (length (Object_keys keywords1) <= length (Object_keys keywords2))%nat ->
  calculateScore keywords1 topics text <= calculateScore keywords2 topics text.
Proof.
  intros H.
  destruct (degenerate keywords1 text) eqn:D1.
  { unfold calculateScore at 1. rewrite D1. apply calculateScore_nonneg. }
  assert (D2 : degenerate keywords2 text = false).
  { unfold degenerate in *.
    apply orb_false_iff in D1 as [D1 Dw]. apply orb_false_iff in D1 as [Dt Dk].
    rewrite Dt, Dw. apply Nat.eqb_neq in Dk.
    destruct (Nat.eqb_spec (length (Object_keys keywords2)) 0); [lia | reflexivity]. }
  unfold calculateScore. rewrite D1, D2. cbv zeta.
  apply finish_le. unfold rawScore. cbv zeta.
  set (w := length (splitWs (trim text))).
  set (l := Object_values topics).
  fold (baseOf (length (Object_keys keywords1)) w l).
  fold (baseOf (length (Object_keys keywords2)) w l).
  pose proof (lengthFactor_pos (String.length (trim text))) as HL.
  pose proof (diversityFactor_pos l) as HD.
  apply Qmult_le_compat_r; [| now apply Qlt_le_weak].
  apply Qmult_le_mono.
  - apply Qmult_le_0_compat; [apply baseOf_nonneg | now apply Qlt_le_weak].
  - apply Qmult_le_compat_r; [now apply baseOf_le | now apply Qlt_le_weak].
  - apply Qlt_le_weak, keywordFactor_pos.
  - now apply keywordFactor_le.
Qed.

End Monotone.

(** C5.  With the topic map and the text fixed, [calculateScore] does
    not decrease when the keyword map gets more entries, for keyword
    counts whose density (keywords per 100 words) is below the cap of
    20. *)
Theorem calculateScore_monotone_below_cap
    (keywords1 keywords2 topics : RecordOf Q) (text : string) :
  let wordCount := length (splitWs (trim text)) in
  (length (Object_keys keywords1) <= length (Object_keys keywords2))%nat ->
  (keywordsPer100Words (length (Object_keys keywords1)) wordCount < 20)%Q ->
  (keywordsPer100Words (length (Object_keys keywords2)) wordCount < 20)%Q ->
  (calculateScore keywords1 topics text <= calculateScore keywords2 topics text)%Q.
Proof. intros w H _ _. now apply calculateScore_le. Qed.

Lemma calculateScore_monotone_below_cap_witness :
  (calculateScore [("coffee", 0.9%Q)] Sample.topics Sample.text
   <= calculateScore [("coffee", 0.9%Q); ("beans", 0.8%Q); ("aroma", 0.7%Q)]
        Sample.topics Sample.text)%Q.
Proof.
  apply calculateScore_monotone_below_cap.
  - simpl. lia.
  - vm_compute. reflexivity.
  - vm_compute. reflexivity.
Defined.

(** ** The content filter *)

Section FilterFacts.

(** The size of the set of words is the number of distinct words. *)
Lemma size_list_to_set_remove_dups (l : list string) :
  size (list_to_set l : gset string) = length (remove_dups l).
Proof.
  rewrite <- (size_list_to_set (C := gset string) (remove_dups l))
    by apply NoDup_remove_dups.
  f_equal. apply set_eq. intros x.
  now rewrite !elem_of_list_to_set, elem_of_remove_dups.
Qed.

(** A keyword fails the [filter] predicate exactly when one of the
    three exclusions applies. *)
Lemma meaningfulKeyword_false (kw : string) :
  meaningfulKeyword kw = false <->
  toLowerCase kw ∈ commonWords \/
  (String.length kw <= 2)%nat \/
  isNumeric kw = true.
Proof.
  unfold meaningfulKeyword.
  rewrite !andb_false_iff, !negb_false_iff, bool_decide_eq_true, Nat.ltb_ge.
  tauto.
Qed.

Lemma no_meaningful_keyword (keywords : RecordOf Q) :
  (0 <? length (filter (fun kw => meaningfulKeyword kw = true)
                       (Object_keys keywords)))%nat = false <->
  noKeywordLeft keywords.
Proof.
  unfold noKeywordLeft. rewrite Nat.ltb_ge. split.
  - intros H kw Hin. apply meaningfulKeyword_false.
    destruct (meaningfulKeyword kw) eqn:E; [| reflexivity].
    assert (Hf : kw ∈ filter (fun kw => meaningfulKeyword kw = true)
                             (Object_keys keywords))
      by now apply list_elem_of_filter.
    destruct (filter _ _); [inversion Hf | simpl in H; lia].
  - intros H.
    destruct (filter _ _) as [|kw l] eqn:E; [simpl; lia |].
    assert (Hf : kw ∈ filter (fun kw => meaningfulKeyword kw = true)
                             (Object_keys keywords))
      by (rewrite E; left).
    apply list_elem_of_filter in Hf as [Hm Hin].
    apply H, meaningfulKeyword_false in Hin. congruence.
Qed.

Lemma placeholder_test (text : string) :
  includes (toLowerCase text) "lorem ipsum"
  || includes (toLowerCase text) "sample text"
  || includes (toLowerCase text) "placeholder" = true <->
  placeholderText text.
Proof. unfold placeholderText. rewrite !orb_true_iff. tauto. Qed.

Lemma repetitive_test (text : string) :
  ltb (ofNat (size (list_to_set (splitWs (toLowerCase text)) : gset string))
       / ofNat (length (splitWs (toLowerCase text)))) 0.5
  && (10 <? length (splitWs (toLowerCase text)))%nat = true <->
  repetitive text.
Proof.
  unfold repetitive, tokens.
  now rewrite andb_true_iff, ltb_lt, Nat.ltb_lt, size_list_to_set_remove_dups.
Qed.

End FilterFacts.

(** C8.  [isMeaningfulContent] returns false exactly when one of the
    four rejection conditions holds (a placeholder phrase in the
    lower-cased text; a trimmed text of fewer than 10 characters; fewer
    than half of the lower-cased white-space-split tokens distinct, with
    more than 10 tokens; no keyword left once stop words, keywords of at
    most 2 characters and purely numeric keywords are excluded), and
    true otherwise; the text "Lorem ipsum dolor sit amet" with the
    keyword "lorem" is rejected. *)
Theorem isMeaningfulContent_rejects :
  (forall (text : string) (keywords : RecordOf Q),
      (isMeaningfulContent text keywords = false <->
       placeholderText text \/ tooShort text \/ repetitive text \/
       noKeywordLeft keywords) /\
      (isMeaningfulContent text keywords = true <->
       ~ (placeholderText text \/ tooShort text \/ repetitive text \/
          noKeywordLeft keywords))) /\
  isMeaningfulContent "Lorem ipsum dolor sit amet" [("lorem", 1%Q)] = false.
Proof.
  split; [| reflexivity].
  intros text keywords.
  assert (Hfalse : isMeaningfulContent text keywords = false <->
                   placeholderText text \/ tooShort text \/ repetitive text \/
                   noKeywordLeft keywords).
  { unfold isMeaningfulContent. cbv zeta.
    rewrite <- placeholder_test, <- repetitive_test, <- no_meaningful_keyword.
    unfold tooShort. rewrite <- Nat.ltb_lt.
    destruct (includes (toLowerCase text) "lorem ipsum"
              || includes (toLowerCase text) "sample text"
              || includes (toLowerCase text) "placeholder");
      [intuition |].
    destruct (String.length (trim text) <? 10)%nat; [intuition |].
    destruct (ltb _ 0.5 && _); [intuition |].
    intuition discriminate. }
  split; [exact Hfalse |].
  rewrite <- Hfalse. now destruct (isMeaningfulContent text keywords).
Qed.

(** The accepting example of the specification: ten distinct words and
    one keyword that is neither short, nor a stop word, nor a number. *)
Example isMeaningfulContent_accepts :
  isMeaningfulContent
    "Quiet rivers carry bright autumn leaves toward distant northern harbors slowly"
    [("rivers", 0.5%Q)] = true.
Proof. vm_compute. reflexivity. Qed.

(** ** The request handler *)

Section HandlerFacts.

(** Each band is decided by the thresholds 75, 50 and 25. *)
Lemma categoryOf_bands (score : Q) :
  ((75 <= score)%Q -> categoryOf score = "high") /\
  ((50 <= score < 75)%Q -> categoryOf score = "medium") /\
  ((25 <= score < 50)%Q -> categoryOf score = "low") /\
  ((score < 25)%Q -> categoryOf score = "very-low").
Proof.
  unfold categoryOf, geb.
  destruct (Qle_bool 75 score) eqn:H75, (Qle_bool 50 score) eqn:H50,
           (Qle_bool 25 score) eqn:H25;
    try apply Qle_bool_iff in H75; try apply Qle_bool_iff in H50;
    try apply Qle_bool_iff in H25;
    try (apply not_true_iff_false in H75; rewrite Qle_bool_iff in H75);
    try (apply not_true_iff_false in H50; rewrite Qle_bool_iff in H50);
    try (apply not_true_iff_false in H25; rewrite Qle_bool_iff in H25);
    repeat split; intros; try reflexivity; exfalso; lra.
Qed.

(** When the Filter accepts, the category is the banding of the score. *)
Lemma analyze_accepted (trimmedText : string) (keywords topics : RecordOf Q) :
  isMeaningfulContent trimmedText keywords = true ->
  responseScore (analyze trimmedText keywords topics)
  = Some (calculateScore keywords topics trimmedText) /\
  responseCategory (analyze trimmedText keywords topics)
  = Some (categoryOf (calculateScore keywords topics trimmedText)).
Proof. intros H. unfold analyze. rewrite H. simpl. now split. Qed.

(** When the Filter rejects, the response is the fixed one. *)
Lemma analyze_rejected (trimmedText : string) (keywords topics : RecordOf Q) :
  isMeaningfulContent trimmedText keywords = false ->
  analyze trimmedText keywords topics
  = RejectResponse [] 0 "low" "No meaningful content"
      "Text seems to be placeholder or lacks SEO value.".
Proof. intros H. unfold analyze. now rewrite H. Qed.

End HandlerFacts.

(** C4 on the rejecting path.  For the request with the text
    "Lorem ipsum dolor sit amet", an API key and a successful answer of
    the extraction service, [POST] gives the response with score 0 and
    category "low", while the banding of the score 0 is "very-low". *)
Theorem POST_rejected_category :
  let data := {| keyword := Some [("lorem", 1%Q)];
                 topic := Some [("latin", 0.5%Q)];
                 result_code := "200";
                 result_msg := "Success" |} in
  let response :=
    POST (Some "key") (fun _ _ => Some data)
         (Some {| body_text := Some "Lorem ipsum dolor sit amet";
                  body_insertKeyword := None |}) in
  responseScore response = Some 0%Q /\
  responseCategory response = Some "low" /\
  categoryOf 0 = "very-low".
Proof. vm_compute. repeat split. Qed.

(** * Further properties of the code *)

(** ** More on strings *)

Section MoreStringFacts.

Lemma length_append (s t : string) :
  String.length (s +:+ t) = (String.length s + String.length t)%nat.
Proof.
  induction s as [|c s IH]; [reflexivity |].
  rewrite append_cons. simpl. now rewrite IH.
Qed.

(** [String.prefix t s] holds exactly when [s] begins with [t]. *)
Lemma prefix_iff (t s : string) :
  String.prefix t s = true <-> exists post, s = t +:+ post.
Proof.
  revert s; induction t as [|c t IH]; intros s.
  - rewrite prefix_empty. split; [now exists s | reflexivity].
  - destruct s as [|d s].
    + split; [simpl; discriminate |].
      intros (post & H). rewrite append_cons in H. discriminate H.
    + simpl. destruct (ascii_dec c d) as [->|Hne].
      * rewrite IH. split; intros (post & H); exists post.
        -- now rewrite append_cons, H.
        -- rewrite append_cons in H. now injection H.
      * split; [discriminate |]. intros (post & H).
        rewrite append_cons in H. injection H as Hd _. congruence.
Qed.

(** [includes s t] holds exactly when [t] is a substring of [s]. *)
Lemma includes_iff (s t : string) :
  includes s t = true <-> exists pre post, s = pre +:+ t +:+ post.
Proof.
  induction s as [|c s IH].
  - rewrite includes_unfold, orb_false_r, prefix_iff. split.
    + intros (post & H). now exists EmptyString, post.
    + intros ([|d pre] & post & H); [now exists post |].
      rewrite append_cons in H. discriminate H.
  - rewrite includes_unfold, orb_true_iff, prefix_iff, IH. split.
    + intros [(post & H) | (pre & post & H)].
      * now exists EmptyString, post.
      * exists (String c pre), post. now rewrite append_cons, H.
    + intros ([|d pre] & post & H).
      * left. now exists post.
      * right. exists pre, post. rewrite append_cons in H. now injection H.
Qed.

(** A joined sequence is its first segment followed by the rest. *)
Lemma join_first (sep x : string) (rest : list string) :
  join sep (x :: rest) = x +:+ afterFirst sep rest.
Proof. destruct rest; simpl; [now rewrite append_empty_r | reflexivity]. Qed.

(** *** Trimming *)

Lemma trimStart_head (s : string) :
  match trimStart s with
  | EmptyString => True
  | String c _ => isWhiteSpace c = false
  end.
Proof.
  induction s as [|c s IH]; simpl; [exact I |].
  destruct (isWhiteSpace c) eqn:E; [exact IH | exact E].
Qed.

Lemma trimEnd_idempotent (s : string) : trimEnd (trimEnd s) = trimEnd s.
Proof.
  induction s as [|c s IH]; simpl; [reflexivity |].
  destruct (isWhiteSpace c && String.eqb (trimEnd s) EmptyString) eqn:E;
    [reflexivity |].
  simpl. now rewrite IH, E.
Qed.

Lemma trim_idempotent (s : string) : trim (trim s) = trim s.
Proof.
  unfold trim. pose proof (trimStart_head s) as H.
  destruct (trimStart s) as [|c u]; [reflexivity |].
  simpl. rewrite H. simpl. rewrite H. simpl.
  now rewrite trimEnd_idempotent, H.
Qed.

End MoreStringFacts.

(** ** More on the keyword inserter *)

(** X1.  Whatever the text and the keyword, the keyword is a substring
    of the text [insertKeyword] returns. *)
Theorem insertKeyword_contains_keyword (text keyword : string) :
  exists pre post, insertKeyword text keyword = pre +:+ keyword +:+ post.
Proof. apply includes_iff, insertKeyword_includes. Qed.

(** X3.  When the keyword does not occur in the text, it is inserted
    right before the first full stop, after a space, or at the end of a
    text without full stop: what precedes the first full stop and what
    follows from it on are kept as they are. *)
Theorem insertKeyword_at_first_stop (text keyword : string) :
  includes text keyword = false ->
  exists pre post,
    text = pre +:+ post /\
    occurs "." pre = false /\
    (post = EmptyString \/ exists tail, post = String "." tail) /\
    insertKeyword text keyword = pre +:+ " " +:+ keyword +:+ post.
Proof.
  intros Habs. rewrite (insertKeyword_absent _ _ Habs).
  pose proof (join_split "." text) as Hjoin.
  pose proof (split_from_sep_free "." EmptyString text eq_refl) as Hfree.
  fold (split "." text) in Hfree.
  destruct (split_cons "." text) as (s0 & rest & E). rewrite E in *.
  exists s0, (afterFirst "." rest). simpl withKeyword.
  rewrite join_first in Hjoin. rewrite join_first.
  repeat split.
  - now symmetry.
  - now inversion Hfree.
  - destruct rest as [|s1 rest]; [now left | right].
    now exists (join "." (s1 :: rest)).
  - now rewrite !append_assoc.
Qed.

Lemma insertKeyword_at_first_stop_witness :
  exists pre post,
    "I like cats. They are great." = pre +:+ post /\
    occurs "." pre = false /\
    (post = EmptyString \/ exists tail, post = String "." tail) /\
    insertKeyword "I like cats. They are great." "feline"
    = pre +:+ " " +:+ "feline" +:+ post.
Proof. apply insertKeyword_at_first_stop. reflexivity. Defined.

(** X4.  An insertion lengthens the text by the keyword and one space;
    a text in which the keyword occurs keeps its length. *)
Theorem insertKeyword_length (text keyword : string) :
  String.length (insertKeyword text keyword)
  = if includes text keyword then String.length text
    else (String.length text + 1 + String.length keyword)%nat.
Proof.
  destruct (includes text keyword) eqn:H.
  - now rewrite insertKeyword_present.
  - rewrite (insertKeyword_absent _ _ H).
    pose proof (join_split "." text) as Hjoin.
    destruct (split_cons "." text) as (s0 & rest & E). rewrite E in *.
    simpl withKeyword. rewrite join_first in *.
    rewrite <- Hjoin, !length_append. simpl. lia.
Qed.

Lemma insertKeyword_resplit_witness :
  split "." (insertKeyword "I like cats. They are great." "feline")
  = withKeyword "feline" (split "." "I like cats. They are great.").
Proof. apply insertKeyword_resplit; reflexivity. Defined.

(** ** Sorting *)

Section SortFacts.
Context {A : Type}.

Lemma sort_insert_perm (cmp : A -> A -> Q) (x : A) (l : list A) :
  sort_insert cmp x l ≡ₚ x :: l.
Proof.
  induction l as [|y l IH]; simpl; [reflexivity |].
  destruct (ltb 0 (cmp x y)); [| reflexivity].
  rewrite IH. apply Permutation_swap.
Qed.

Lemma sort_perm (cmp : A -> A -> Q) (l : list A) : sort cmp l ≡ₚ l.
Proof.
  induction l as [|x l IH]; simpl; [reflexivity |].
  now rewrite sort_insert_perm, IH.
Qed.

Variable key : A -> Q.

(** A sort by descending [key] puts no element before one of larger
    key. *)
Lemma sort_insert_desc (x : A) (l : list A) :
  StronglySorted (fun a b => (key b <= key a)%Q) l ->
  StronglySorted (fun a b => (key b <= key a)%Q)
                 (sort_insert (fun a b => key b - key a)%Q x l).
Proof.
  induction 1 as [|y l Hs IH Hy]; simpl.
  - repeat constructor.
  - destruct (ltb 0 (key y - key x)) eqn:E.
    + constructor; [exact IH |].
      rewrite sort_insert_perm. constructor; [| exact Hy].
      apply ltb_lt in E. lra.
    + apply ltb_ge in E.
      constructor; [now constructor |].
      constructor; [lra |].
      eapply Forall_impl; [exact Hy |].
      intros z Hz. simpl in Hz. lra.
Qed.

Lemma sort_desc (l : list A) :
  StronglySorted (fun a b => (key b <= key a)%Q)
                 (sort (fun a b => key b - key a)%Q l).
Proof.
  induction l as [|x l IH]; simpl; [constructor |].
  now apply sort_insert_desc.
Qed.

End SortFacts.

(** ** More on the score calculator *)

Section MoreScoreFacts.
Open Scope Q_scope.

Lemma ltb_compat (x x' y y' : Q) : x == x' -> y == y' -> ltb x y = ltb x' y'.
Proof. intros Hx Hy. unfold ltb. now rewrite Hx, Hy. Qed.

(** Equal scores before the adjustment give the same final score. *)
Lemma finish_compat (x y : Q) :
  x == y ->
  Math_min 100 (Math_max 0 (Math_round (adjust x)))
  = Math_min 100 (Math_max 0 (Math_round (adjust y))).
Proof.
  intros H. do 2 f_equal. unfold Math_round. f_equal.
  apply Qfloor_comp. unfold adjust.
  rewrite (ltb_compat 85 85 x y (Qeq_refl _) H).
  destruct (ltb 85 y); rewrite H; reflexivity.
Qed.

(** The largest topic weight, or 0, whatever the order of the topics. *)
Lemma Math_max_spread_perm (l1 l2 : list Q) :
  l1 ≡ₚ l2 -> Math_max_spread l1 0 == Math_max_spread l2 0.
Proof.
  induction 1 as [|x l1 l2 _ IH|x y l|l1 l2 l3 _ IH1 _ IH2]; simpl.
  - reflexivity.
  - now rewrite IH.
  - rewrite !Q.max_assoc. now rewrite (Q.max_comm y x).
  - now rewrite IH1.
Qed.

Lemma Math_max_spread_le (l : list Q) (m : Q) :
  0 <= m -> Forall (fun w => w <= m) l -> Math_max_spread l 0 <= m.
Proof.
  intros Hm. induction 1 as [|x l Hx _ IH]; simpl; [exact Hm |].
  now apply Q.max_lub.
Qed.

Lemma diversityFactor_cases (l : list Q) :
  diversityFactor l = 1 \/ diversityFactor l = 1.1.
Proof.
  unfold diversityFactor.
  destruct (1 <? length l)%nat; [| now left].
  destruct (take 2 (sort _ l)) as [|a [|b t]]; try now left.
  destruct (ltb (a * 0.7) b); [now right | now left].
Qed.

(** The diversity bonus is granted exactly when, besides a topic of
    largest weight, another topic weighs more than 70% of it. *)
Lemma diversityFactor_bonus (l : list Q) :
  diversityFactor l = 1.1 <->
  exists top other rest,
    l ≡ₚ top :: other :: rest /\
    Forall (fun w => w <= top) l /\
    top * 0.7 < other.
Proof.
  pose proof (sort_perm (fun a b => b - a) l) as Hperm.
  pose proof (sort_desc (fun w => w) l) as Hsorted.
  unfold diversityFactor. split.
  - destruct (1 <? length l)%nat; [| discriminate].
    destruct (sort _ l) as [|t0 [|t1 r]]; simpl; try discriminate.
    destruct (ltb (t0 * 0.7) t1) eqn:E; [| discriminate]. intros _.
    exists t0, t1, r. split; [now symmetry |]. split; [| now apply ltb_lt].
    rewrite <- Hperm. apply StronglySorted_inv in Hsorted as [_ H0].
    constructor; [apply Qle_refl | exact H0].
  - intros (a & b & rest & Hl & Hmax & Hlt).
    assert (Hlen : (1 <? length l)%nat = true).
    { apply Nat.ltb_lt. rewrite Hl. simpl. lia. }
    rewrite Hlen.
    assert (Hp : sort (fun a b => b - a) l ≡ₚ a :: b :: rest)
      by now rewrite Hperm.
    destruct (sort _ l) as [|t0 [|t1 r]].
    { apply Permutation_length in Hp. discriminate Hp. }
    { apply Permutation_length in Hp. discriminate Hp. }
    simpl.
    apply StronglySorted_inv in Hsorted as [Hs1 H0].
    apply StronglySorted_inv in Hs1 as [_ H1].
    rewrite Forall_forall in H0, H1, Hmax.
    assert (Ht0 : t0 <= a).
    { apply Hmax. rewrite <- Hperm. left. }
    assert (Ha : a <= t0).
    { assert (Hin : a ∈ t0 :: t1 :: r) by (rewrite Hp; left).
      apply elem_of_cons in Hin as [-> | Hin]; [apply Qle_refl | now apply H0]. }
    assert (Hb : b <= t1).
    { assert (Hin : b ∈ t0 :: t1 :: r) by (rewrite Hp; right; left).
      assert (Htail : forall z, z ∈ t1 :: r -> z <= t1).
      { intros z Hz. apply elem_of_cons in Hz as [-> | Hz];
          [apply Qle_refl | now apply H1]. }
      apply elem_of_cons in Hin as [-> | Hin]; [| now apply Htail].
      assert (Hp' : t1 :: r ≡ₚ a :: rest).
      { apply (Permutation_cons_inv (a := t0)).
        rewrite Hp. apply Permutation_swap. }
      apply Qle_trans with a.
      - apply Hmax. rewrite <- Hperm. left.
      - apply Htail. rewrite Hp'. left. }
    assert (E : ltb (t0 * 0.7) t1 = true) by (apply ltb_lt; lra).
    now rewrite E.
Qed.

Lemma diversityFactor_perm (l1 l2 : list Q) :
  l1 ≡ₚ l2 -> diversityFactor l1 = diversityFactor l2.
Proof.
  intros H.
  assert (Hiff : diversityFactor l1 = 1.1 <-> diversityFactor l2 = 1.1).
  { rewrite !diversityFactor_bonus.
    split; intros (a & b & rest & Hl & Hmax & Hlt); exists a, b, rest.
    - rewrite <- H. now split.
    - rewrite H. now split. }
  destruct (diversityFactor_cases l1) as [E1|E1],
           (diversityFactor_cases l2) as [E2|E2]; rewrite E1, E2; try reflexivity.
  - apply Hiff in E2. rewrite E1 in E2. discriminate.
  - apply Hiff in E1. rewrite E2 in E1. discriminate.
Qed.

Lemma lengthFactor_le_1 (n : nat) : lengthFactor n <= 1.
Proof.
  unfold lengthFactor.
  destruct (n <? 100)%nat; [discriminate |].
  destruct (n <? 200)%nat; [discriminate |].
  destruct (n <? 500)%nat; discriminate.
Qed.

Lemma keywordFactor_le_1 (k : nat) : keywordFactor k <= 1.
Proof.
  unfold keywordFactor.
  destruct (k <? 3)%nat; [discriminate |].
  destruct (k <? 5)%nat; discriminate.
Qed.

(** The score before the adjustment, from a bound on the topic weights
    and on the diversity factor. *)
Lemma rawScore_le (keywords topics : RecordOf Q) (text : string) (m d : Q) :
  0 <= m ->
  Forall (fun w => w <= m) (Object_values topics) ->
  diversityFactor (Object_values topics) <= d ->
  rawScore keywords topics text <= (40 + m * 80) * d.
Proof.
  intros Hm Hall Hd. unfold rawScore. cbv zeta.
  set (k := length (Object_keys keywords)).
  set (w := length (splitWs (trim text))).
  set (l := Object_values topics) in *.
  fold (baseOf k w l).
  pose proof (baseOf_nonneg k w l) as Hb0.
  assert (Hb : baseOf k w l <= 40 + m * 80).
  { unfold baseOf, Math_min.
    pose proof (Q.le_min_r (keywordsPer100Words k w) 20).
    pose proof (Math_max_spread_le l m Hm Hall). lra. }
  pose proof (lengthFactor_pos (String.length (trim text))) as HL0.
  pose proof (lengthFactor_le_1 (String.length (trim text))) as HL1.
  pose proof (keywordFactor_pos k) as HK0.
  pose proof (keywordFactor_le_1 k) as HK1.
  pose proof (diversityFactor_pos l) as HD0.
  apply Qmult_le_mono; [| | now apply Qlt_le_weak | exact Hd].
  - repeat apply Qmult_le_0_compat; try exact Hb0; now apply Qlt_le_weak.
  - rewrite <- (Qmult_1_r (40 + m * 80)).
    apply Qmult_le_mono; [| | now apply Qlt_le_weak | exact HK1].
    + apply Qmult_le_0_compat; [exact Hb0 | now apply Qlt_le_weak].
    + rewrite <- (Qmult_1_r (40 + m * 80)).
      apply Qmult_le_mono; [exact Hb0 | exact Hb | now apply Qlt_le_weak | exact HL1].
Qed.

Lemma calculateScore_le_finish (keywords topics : RecordOf Q) (text : string) (bound : Q) :
  rawScore keywords topics text <= bound ->
  calculateScore keywords topics text
  <= Math_min 100 (Math_max 0 (Math_round (adjust bound))).
Proof.
  intros H. unfold calculateScore.
  destruct (degenerate keywords text).
  - apply Q.min_glb; [discriminate | apply Q.le_max_l].
  - now apply finish_le.
Qed.

End MoreScoreFacts.

(** X6.  The score does not depend on the names of the topics nor on
    the order in which the topic map lists them: two topic maps with the
    same weights, in any order, give the same score. *)
Theorem calculateScore_topic_weights_only
    (keywords topics1 topics2 : RecordOf Q) (text : string) :
  Object_values topics1 ≡ₚ Object_values topics2 ->
  calculateScore keywords topics1 text = calculateScore keywords topics2 text.
Proof.
  intros H. unfold calculateScore.
  destruct (degenerate keywords text); [reflexivity |].
  apply finish_compat. unfold rawScore. cbv zeta.
  now rewrite (Math_max_spread_perm _ _ H), (diversityFactor_perm _ _ H).
Qed.

Lemma calculateScore_topic_weights_only_witness :
  calculateScore Sample.keywords [("food", 0.5%Q); ("drinks", 0.75%Q)] Sample.text
  = calculateScore Sample.keywords [("tea", 0.75%Q); ("cake", 0.5%Q)] Sample.text.
Proof.
  apply calculateScore_topic_weights_only. simpl. apply Permutation_swap.
Defined.

(** X7.  The diversity factor is 1 or 1.1, and 1 with fewer than two
    topics.  It is 1.1 only when the largest topic weight is positive
    and another topic weighs more than 69% of it: the test of the code
    is at 70%, and the margin covers the rounding of its product. *)
Theorem diversityFactor_bonus_needs (topicScores : list Q) :
  (diversityFactor topicScores = 1%Q \/ diversityFactor topicScores = 1.1%Q) /\
  ((length topicScores <= 1)%nat -> diversityFactor topicScores = 1%Q) /\
  (diversityFactor topicScores = 1.1%Q ->
   exists top other rest,
     topicScores ≡ₚ top :: other :: rest /\
     Forall (fun w => (w <= top)%Q) topicScores /\
     (0 < top)%Q /\
     (top * 0.69 < other)%Q).
Proof.
  split; [apply diversityFactor_cases |]. split.
  - intros Hlen. unfold diversityFactor.
    destruct (Nat.ltb_spec 1 (length topicScores)); [lia | reflexivity].
  - intros H. apply diversityFactor_bonus in H as (a & b & rest & Hl & Hmax & Hlt).
    exists a, b, rest. split; [exact Hl |]. split; [exact Hmax |].
    assert (Hb : (b <= a)%Q).
    { rewrite Forall_forall in Hmax. apply Hmax. rewrite Hl. right. left. }
    split; lra.
Qed.

Lemma diversityFactor_bonus_needs_witness :
  exists top other rest,
    [0.5%Q; 0.7%Q] ≡ₚ top :: other :: rest /\
    Forall (fun w => (w <= top)%Q) [0.5%Q; 0.7%Q] /\
    (0 < top)%Q /\
    (top * 0.69 < other)%Q.
Proof.
  apply (proj2 (proj2 (diversityFactor_bonus_needs [0.5%Q; 0.7%Q]))).
  vm_compute. reflexivity.
Defined.

(** X8.  With topic weights of at most 1, the range the source takes
    them to have, the score is at most 99: 100 is out of reach. *)
Theorem calculateScore_at_most_99 (keywords topics : RecordOf Q) (text : string) :
  Forall (fun w => (w <= 1)%Q) (Object_values topics) ->
  (calculateScore keywords topics text <= 99)%Q.
Proof.
  intros H.
  eapply Qle_trans.
  - apply (calculateScore_le_finish _ _ _ ((40 + 1 * 80) * 1.1)%Q).
    apply rawScore_le; [discriminate | exact H |].
    destruct (diversityFactor_cases (Object_values topics)) as [-> | ->];
      discriminate.
  - vm_compute. discriminate.
Qed.

Lemma calculateScore_at_most_99_witness :
  (calculateScore Sample.keywords [("food", 1%Q); ("drinks", 1%Q)] Sample.text
   <= 99)%Q.
Proof.
  apply calculateScore_at_most_99. simpl. repeat constructor; discriminate.
Defined.

(** X9.  When no topic has a positive weight, and so when there is no
    topic at all, the score is at most 40. *)
Theorem calculateScore_without_topic (keywords topics : RecordOf Q) (text : string) :
  Forall (fun w => (w <= 0)%Q) (Object_values topics) ->
  (calculateScore keywords topics text <= 40)%Q.
Proof.
  intros H.
  eapply Qle_trans.
  - apply (calculateScore_le_finish _ _ _ ((40 + 0 * 80) * 1)%Q).
    apply rawScore_le; [discriminate | exact H |].
    destruct (diversityFactor_cases (Object_values topics)) as [-> | E];
      [discriminate |].
    apply diversityFactor_bonus in E as (a & b & rest & Hl & Hmax & Hlt).
    rewrite Forall_forall in H, Hmax.
    assert (a <= 0)%Q by (apply H; rewrite Hl; left).
    assert (b <= a)%Q by (apply Hmax; rewrite Hl; right; left).
    lra.
  - vm_compute. discriminate.
Qed.

Lemma calculateScore_without_topic_witness :
  (calculateScore Sample.keywords [] Sample.text <= 40)%Q.
Proof. apply calculateScore_without_topic. constructor. Defined.

(** ** More on the request handler *)

Section MoreHandlerFacts.

Lemma truthy_Some (s : string) : truthy (Some s) = false <-> s = EmptyString.
Proof. simpl. rewrite negb_false_iff. apply String.eqb_eq. Qed.

Lemma truthy_Some_true (s : string) : truthy (Some s) = true <-> s <> EmptyString.
Proof.
  rewrite <- truthy_Some. destruct (truthy (Some s)); split; congruence.
Qed.

Lemma POST_text (apiKey : option string)
    (fetchTwinword : string -> string -> option TwinwordResponse)
    (text : string) (ik : option string) :
  POST apiKey fetchTwinword
       (Some {| body_text := Some text; body_insertKeyword := ik |})
  = if negb (truthy (Some text)) || negb (truthy (Some (trim text))) then
      ErrorResponse "Please enter valid text." 400
    else if truthy ik then
      InsertResponse (insertKeyword (trim text) (default EmptyString ik))
    else
      match (if truthy apiKey then apiKey else None) with
      | None => ErrorResponse "Missing Twinword API key." 500
      | Some key =>
          match fetchTwinword key (trim text) with
          | None => ErrorResponse "Unexpected server error." 500
          | Some data =>
              if negb (String.eqb (result_code data) "200") then
                ErrorResponse "Topic not found or irrelevant." 500
              else
                analyze (trim text) (default [] (keyword data))
                        (default [] (topic data))
          end
      end.
Proof. reflexivity. Qed.

(** Every answer of [POST] is one of the cases of [POST_outcome]. *)
Lemma POST_outcome_holds (apiKey : option string)
    (fetchTwinword : string -> string -> option TwinwordResponse)
    (req : option Body) :
  POST_outcome apiKey fetchTwinword req (POST apiKey fetchTwinword req).
Proof.
  destruct req as [[[text|] ik]|]; [| apply NoText | apply Undecodable].
  rewrite POST_text.
  destruct (truthy (Some (trim text))) eqn:Et.
  - assert (Hne : trim text <> EmptyString) by now apply truthy_Some_true.
    assert (Ht : truthy (Some text) = true).
    { apply truthy_Some_true. intros ->. now apply Hne. }
    rewrite Ht. cbn [negb orb].
    destruct (truthy ik) eqn:Eik.
    { destruct ik as [kw|]; [| discriminate Eik].
      apply Inserted; [exact Hne | now apply truthy_Some_true]. }
    destruct (truthy apiKey) eqn:Ek; [| now apply MissingKey].
    destruct apiKey as [key|]; [| discriminate Ek].
    assert (Hkey : key <> EmptyString) by now apply truthy_Some_true.
    destruct (fetchTwinword key (trim text)) as [data|] eqn:Ef;
      [| now apply (ServiceThrows _ _ _ _ key)].
    destruct (String.eqb_spec (result_code data) "200") as [Ec|Ec]; cbn [negb].
    + now apply (Analyzed _ _ _ _ key).
    + now apply (ServiceRefuses _ _ _ _ key data).
  - rewrite orb_true_r. apply BlankText. now apply truthy_Some.
Qed.

End MoreHandlerFacts.

Section MoreHandlerFacts2.

Lemma analyze_ok (trimmedText : string) (keywords topics : RecordOf Q) :
  HomePage.status (analyze trimmedText keywords topics) = 200%nat /\
  HomePage.errorOf (analyze trimmedText keywords topics) = None /\
  HomePage.updatedTextOf (analyze trimmedText keywords topics) = None.
Proof. unfold analyze. now destruct (negb (isMeaningfulContent _ _)). Qed.

(** The shape of an accepted answer. *)
Lemma analyze_accepted_shape (trimmedText : string) (keywords topics : RecordOf Q) :
  isMeaningfulContent trimmedText keywords = true ->
  analyze trimmedText keywords topics
  = let sortedKeywords := sort (fun a b => snd b - snd a)%Q keywords in
    let sortedTopics := sort (fun a b => snd b - snd a)%Q topics in
    AnalysisResponse
      (map fst sortedKeywords)
      (calculateScore keywords topics trimmedText)
      (categoryOf (calculateScore keywords topics trimmedText))
      (match sortedTopics with t :: _ => fst t | [] => "general" end)
      (match sortedTopics with t :: _ => snd t | [] => 0%Q end)
      (length (map fst sortedKeywords))
      (String.length trimmedText)
      (length (splitWs trimmedText)).
Proof. intros H. unfold analyze, Object_entries. now rewrite H. Qed.

Lemma outcome_status (apiKey : option string)
    (fetchTwinword : string -> string -> option TwinwordResponse)
    (req : option Body) (res : Response) :
  POST_outcome apiKey fetchTwinword req res ->
  (HomePage.status res = 400%nat <->
   exists body, req = Some body /\
     (body_text body = None \/
      exists text, body_text body = Some text /\ trim text = EmptyString)) /\
  (HomePage.status res = 200%nat \/ HomePage.status res = 400%nat \/
   HomePage.status res = 500%nat) /\
  (HomePage.status res = 200%nat <-> HomePage.errorOf res = None).
Proof.
  assert (Hblank : forall text ik,
             trim text <> EmptyString ->
             ~ exists body,
                 Some {| body_text := Some text; body_insertKeyword := ik |} = Some body /\
                 (body_text body = None \/
                  exists t, body_text body = Some t /\ trim t = EmptyString)).
  { intros text ik Hne (body & [= <-] & [H | (t & [= <-] & H)]);
      [discriminate H | tauto]. }
  destruct 1;
    try (destruct (analyze_ok (trim text) (default [] (keyword data))
                              (default [] (topic data))) as (Hs & He & _);
         rewrite Hs, He);
    simpl; (split; [split | split; [auto | split; congruence]]);
    try discriminate; try (intros H'; exfalso; eapply Hblank; eassumption).
  - intros (body & H' & _). discriminate H'.
  - intros _. eexists. split; [reflexivity | now left].
  - reflexivity.
  - intros _. eexists. split; [reflexivity | right]. now exists text.
  - reflexivity.
Qed.

End MoreHandlerFacts2.

(** X11.  [POST] answers with status 400 exactly when the body decodes
    to a value other than [null] that has no text string or whose text
    is blank (empty once trimmed), whatever the other inputs.  When
    [req.json()] throws, and when the body is [null], it answers 500
    with the message of the [catch].  Every answer has status 200, 400
    or 500, and carries an [error] field exactly when its status is not
    200. *)
Theorem POST_status (apiKey : option string)
    (fetchTwinword : string -> string -> option TwinwordResponse)
    (decoded : Decoded) :
  let res := POST apiKey fetchTwinword (readBody decoded) in
  (HomePage.status res = 400%nat <->
   exists body, decoded = JsonValue body /\
     (body_text body = None \/
      exists text, body_text body = Some text /\ trim text = EmptyString)) /\
  (decoded = JsonThrows \/ decoded = JsonNull ->
   res = ErrorResponse "Unexpected server error." 500) /\
  (HomePage.status res = 200%nat \/ HomePage.status res = 400%nat \/
   HomePage.status res = 500%nat) /\
  (HomePage.status res = 200%nat <-> HomePage.errorOf res = None).
Proof.
  intros res. subst res.
  destruct (outcome_status apiKey fetchTwinword (readBody decoded) _
              (POST_outcome_holds apiKey fetchTwinword (readBody decoded)))
    as (H400 & Hst & Hok).
  split; [| split; [| split; [exact Hst | exact Hok]]].
  - rewrite H400. destruct decoded as [| |body]; simpl; split.
    + intros (body & H & _). discriminate H.
    + intros (body & H & _). discriminate H.
    + intros (body & H & _). discriminate H.
    + intros (body & H & _). discriminate H.
    + intros (b & [= <-] & H). now exists body.
    + intros (b & [= <-] & H). now exists body.
  - intros [-> | ->]; reflexivity.
Qed.

(** X12.  White space around the text of a request never changes the
    answer: [POST] answers a request as it answers the same request with
    the text trimmed. *)
Theorem POST_ignores_outer_white_space (apiKey : option string)
    (fetchTwinword : string -> string -> option TwinwordResponse)
    (text : string) (ik : option string) :
  POST apiKey fetchTwinword
       (Some {| body_text := Some text; body_insertKeyword := ik |})
  = POST apiKey fetchTwinword
         (Some {| body_text := Some (trim text); body_insertKeyword := ik |}).
Proof.
  rewrite !POST_text, trim_idempotent.
  destruct (truthy (Some (trim text))) eqn:Et.
  - assert (Ht : truthy (Some text) = true).
    { apply truthy_Some_true. intros ->. discriminate Et. }
    now rewrite Ht.
  - now rewrite !orb_true_r.
Qed.

(** X13.  When the Filter accepts, the keywords of the answer are the
    keys of the keyword map, each entry once, by descending weight, and
    [totalKeywords] is the number of entries of the map. *)
Theorem analyze_keywords_ranked (trimmedText : string) (keywords topics : RecordOf Q) :
  isMeaningfulContent trimmedText keywords = true ->
  exists ranked score category topTopic topicScore textLength wordCount,
    analyze trimmedText keywords topics
    = AnalysisResponse (map fst ranked) score category topTopic topicScore
                       (length keywords) textLength wordCount /\
    ranked ≡ₚ keywords /\
    StronglySorted (fun a b => (snd b <= snd a)%Q) ranked.
Proof.
  intros H. rewrite (analyze_accepted_shape _ _ _ H). cbv zeta.
  eexists (sort _ keywords), _, _, _, _, _, _.
  split; [| split].
  - rewrite length_map, (Permutation_length (sort_perm _ keywords)). reflexivity.
  - apply sort_perm.
  - apply (sort_desc snd).
Qed.

Lemma analyze_keywords_ranked_witness :
  exists ranked score category topTopic topicScore textLength wordCount,
    analyze Sample.text Sample.keywords Sample.topics
    = AnalysisResponse (map fst ranked) score category topTopic topicScore
                       (length Sample.keywords) textLength wordCount /\
    ranked ≡ₚ Sample.keywords /\
    StronglySorted (fun a b => (snd b <= snd a)%Q) ranked.
Proof. apply analyze_keywords_ranked. vm_compute. reflexivity. Defined.

(** X14.  When the Filter accepts, the topic of the answer is "general"
    with topic score 0 if the topic map is empty, and otherwise the name
    and the weight of an entry of the topic map whose weight no other
    entry exceeds. *)
Theorem analyze_top_topic (trimmedText : string) (keywords topics : RecordOf Q) :
  isMeaningfulContent trimmedText keywords = true ->
  exists ranked score category topTopic topicScore total textLength wordCount,
    analyze trimmedText keywords topics
    = AnalysisResponse ranked score category topTopic topicScore
                       total textLength wordCount /\
    match topics with
    | [] => topTopic = "general" /\ topicScore = 0%Q
    | _ :: _ =>
        (topTopic, topicScore) ∈ topics /\
        Forall (fun t => (snd t <= topicScore)%Q) topics
    end.
Proof.
  intros H. rewrite (analyze_accepted_shape _ _ _ H). cbv zeta.
  do 8 eexists. split; [reflexivity |].
  pose proof (sort_perm (fun a b => snd b - snd a)%Q topics) as Hperm.
  pose proof (sort_desc snd topics) as Hsorted.
  destruct topics as [|t0 topics']; [now split |].
  destruct (sort _ (t0 :: topics')) as [|[name weight] sorted].
  { apply Permutation_length in Hperm. discriminate Hperm. }
  simpl. split.
  - rewrite <- Hperm. left.
  - rewrite <- Hperm. apply StronglySorted_inv in Hsorted as [_ H0].
    constructor; [apply Qle_refl | exact H0].
Qed.

Lemma analyze_top_topic_witness :
  exists ranked score category topTopic topicScore total textLength wordCount,
    analyze Sample.text Sample.keywords Sample.topics
    = AnalysisResponse ranked score category topTopic topicScore
                       total textLength wordCount /\
    (topTopic, topicScore) ∈ Sample.topics /\
    Forall (fun t => (snd t <= topicScore)%Q) Sample.topics.
Proof.
  apply (analyze_top_topic Sample.text Sample.keywords Sample.topics).
  vm_compute. reflexivity.
Defined.

Section AnswerFacts.

Lemma categoryOf_cases (score : Q) :
  (categoryOf score = "high" /\ (75 <= score)%Q) \/
  (categoryOf score = "medium" /\ (50 <= score < 75)%Q) \/
  (categoryOf score = "low" /\ (25 <= score < 50)%Q) \/
  (categoryOf score = "very-low" /\ (score < 25)%Q).
Proof.
  unfold categoryOf, geb.
  destruct (Qle_bool 75 score) eqn:H75;
    [left; split; [reflexivity | now apply Qle_bool_iff] |].
  apply not_true_iff_false in H75. rewrite Qle_bool_iff in H75.
  apply Qnot_le_lt in H75.
  destruct (Qle_bool 50 score) eqn:H50;
    [right; left; apply Qle_bool_iff in H50; now repeat split |].
  apply not_true_iff_false in H50. rewrite Qle_bool_iff in H50.
  apply Qnot_le_lt in H50.
  destruct (Qle_bool 25 score) eqn:H25;
    [right; right; left; apply Qle_bool_iff in H25; now repeat split |].
  apply not_true_iff_false in H25. rewrite Qle_bool_iff in H25.
  apply Qnot_le_lt in H25.
  right; right; right. now split.
Qed.

(** An accepted text comes with at least one keyword. *)
Lemma accepted_has_keyword (text : string) (keywords : RecordOf Q) :
  isMeaningfulContent text keywords = true -> (1 <= length keywords)%nat.
Proof.
  intros H.
  destruct keywords as [|e keywords]; [| simpl; lia].
  exfalso. revert H. unfold isMeaningfulContent. cbv zeta.
  destruct (_ || _); [discriminate |].
  destruct (_ <? 10)%nat; [discriminate |].
  destruct (_ && _); discriminate.
Qed.

(** An answer of [analyze] with the fields of an analysis is the
    accepted one. *)
Lemma analyze_analysis_inv (trimmedText : string) (keywords topics : RecordOf Q)
    ranked score category topTopic topicScore total textLength wordCount :
  analyze trimmedText keywords topics
  = AnalysisResponse ranked score category topTopic topicScore
                     total textLength wordCount ->
  isMeaningfulContent trimmedText keywords = true /\
  score = calculateScore keywords topics trimmedText /\
  category = categoryOf score /\
  total = length ranked /\
  total = length keywords /\
  textLength = String.length trimmedText /\
  wordCount = length (splitWs trimmedText).
Proof.
  intros H.
  destruct (isMeaningfulContent trimmedText keywords) eqn:E.
  - rewrite (analyze_accepted_shape _ _ _ E) in H. cbv zeta in H.
    injection H as <- <- <- <- <- <- <- <-.
    repeat split; try reflexivity.
    now rewrite length_map, (Permutation_length (sort_perm _ keywords)).
  - rewrite (analyze_rejected _ _ _ E) in H. discriminate H.
Qed.

End AnswerFacts.

(** X15.  When the Filter accepts, the category of the answer is the
    band of its score, with the thresholds 75, 50 and 25: "high" from
    75 on, "medium" from 50 to below 75, "low" from 25 to below 50,
    "very-low" below 25. *)
Theorem analyze_accepted_category (trimmedText : string) (keywords topics : RecordOf Q) :
  isMeaningfulContent trimmedText keywords = true ->
  exists score category,
    responseScore (analyze trimmedText keywords topics) = Some score /\
    responseCategory (analyze trimmedText keywords topics) = Some category /\
    (category = "high" <-> (75 <= score)%Q) /\
    (category = "medium" <-> (50 <= score < 75)%Q) /\
    (category = "low" <-> (25 <= score < 50)%Q) /\
    (category = "very-low" <-> (score < 25)%Q).
Proof.
  intros H. destruct (analyze_accepted _ _ topics H) as [Hs Hc].
  eexists _, _. split; [exact Hs |]. split; [exact Hc |].
  destruct (categoryOf_cases (calculateScore keywords topics trimmedText))
    as [[-> Hb] | [[-> Hb] | [[-> Hb] | [-> Hb]]]];
    repeat split; intros; try discriminate; try reflexivity; try tauto; lra.
Qed.

Lemma analyze_accepted_category_witness :
  exists score category,
    responseScore (analyze Sample.text Sample.keywords Sample.topics) = Some score /\
    responseCategory (analyze Sample.text Sample.keywords Sample.topics) = Some category /\
    (category = "high" <-> (75 <= score)%Q) /\
    (category = "medium" <-> (50 <= score < 75)%Q) /\
    (category = "low" <-> (25 <= score < 50)%Q) /\
    (category = "very-low" <-> (score < 25)%Q).
Proof. apply analyze_accepted_category. vm_compute. reflexivity. Defined.

(** X16.  An analysis answered by [POST] is consistent in itself: it
    lists at least one keyword, [totalKeywords] is the number of listed
    keywords, the score is an integer from 0 to 100, and the score is 0
    with category "very-low" when the reported [textLength] is below 20
    or the reported [wordCount] is below 5. *)
Theorem POST_analysis_consistent (apiKey : option string)
    (fetchTwinword : string -> string -> option TwinwordResponse)
    (req : option Body)
    ranked score category topTopic topicScore total textLength wordCount :
  POST apiKey fetchTwinword req
  = AnalysisResponse ranked score category topTopic topicScore
                     total textLength wordCount ->
  total = length ranked /\ (1 <= total)%nat /\
  (exists n : Z, score = inject_Z n /\ (0 <= n <= 100)%Z) /\
  ((textLength < 20)%nat \/ (wordCount < 5)%nat ->
   score = 0%Q /\ category = "very-low").
Proof.
  intros H.
  pose proof (POST_outcome_holds apiKey fetchTwinword req) as Ho.
  rewrite H in Ho. inversion Ho as [| | | | | | |text ik key data Ht Hik Hk Hkey Hf Hc Hreq Hres].
  apply analyze_analysis_inv in Hres
    as (Hacc & -> & -> & Hlen & Hkw & -> & ->).
  split; [exact Hlen |]. split.
  { rewrite Hkw. now apply (accepted_has_keyword (trim text)). }
  split; [apply calculateScore_integer |].
  intros Hshort.
  assert (Hz : calculateScore (default [] (keyword data)) (default [] (topic data))
                              (trim text) = 0%Q).
  { unfold calculateScore, degenerate. rewrite trim_idempotent.
    destruct Hshort as [Hs | Hs]; apply Nat.ltb_lt in Hs; rewrite Hs;
      now rewrite ?orb_true_r. }
  now rewrite Hz.
Qed.

Lemma POST_analysis_consistent_witness :
  (1 = length ["rivers"] /\ (1 <= 1)%nat /\
   (exists n : Z, 0%Q = inject_Z n /\ (0 <= n <= 100)%Z) /\
   ((12 < 20)%nat \/ (2 < 5)%nat -> 0%Q = 0%Q /\ "very-low" = "very-low"))%nat.
Proof.
  pose (data := {| keyword := Some [("rivers", 0.5%Q)];
                   topic := Some [("nature", 0.5%Q)];
                   result_code := "200"; result_msg := "" |}).
  apply (POST_analysis_consistent (Some "key") (fun _ _ => Some data)
           (Some {| body_text := Some " quiet rivers "; body_insertKeyword := None |})
           ["rivers"] 0%Q "very-low" "nature" 0.5%Q 1%nat 12%nat 2%nat).
  vm_compute. reflexivity.
Defined.

(** ** The page *)

Section PageFacts.

Lemma geb_true (x y : Q) : geb x y = true <-> (y <= x)%Q.
Proof. apply Qle_bool_iff. Qed.

Lemma geb_le (x y z : Q) : (y <= z)%Q -> geb x z = true -> geb x y = true.
Proof. rewrite !geb_true. intros. now apply Qle_trans with z. Qed.

Lemma POST_analyzes (apiKey : option string)
    (fetchTwinword : string -> string -> option TwinwordResponse)
    (text : string) (ik : option string) (key : string) (data : TwinwordResponse) :
  trim text <> EmptyString -> truthy ik = false ->
  apiKey = Some key -> key <> EmptyString ->
  fetchTwinword key (trim text) = Some data ->
  result_code data = "200" ->
  POST apiKey fetchTwinword
       (Some {| body_text := Some text; body_insertKeyword := ik |})
  = analyze (trim text) (default [] (keyword data)) (default [] (topic data)).
Proof.
  intros Hne Hik -> Hkey Hf Hc. rewrite POST_text.
  assert (H1 : truthy (Some (trim text)) = true) by now apply truthy_Some_true.
  assert (H2 : truthy (Some text) = true).
  { apply truthy_Some_true. intros ->. now apply Hne. }
  assert (H3 : truthy (Some key) = true) by now apply truthy_Some_true.
  now rewrite H1, H2, Hik, H3, Hf, Hc, String.eqb_refl.
Qed.

(** The score and the category of an answer of [POST], when it has
    them: the fixed rejection, or a score with its band. *)
Lemma POST_score_category (apiKey : option string)
    (fetchTwinword : string -> string -> option TwinwordResponse)
    (req : option Body) (score : Q) (category : string) :
  responseScore (POST apiKey fetchTwinword req) = Some score ->
  responseCategory (POST apiKey fetchTwinword req) = Some category ->
  (score = 0%Q /\ category = "low") \/ category = categoryOf score.
Proof.
  pose proof (POST_outcome_holds apiKey fetchTwinword req) as Ho.
  remember (POST apiKey fetchTwinword req) as res eqn:Hres. clear Hres.
  destruct Ho as [| | | | | | |text ik key data Ht Hik Hk Hkey Hf Hc];
    try discriminate.
  destruct (isMeaningfulContent (trim text) (default [] (keyword data))) eqn:E.
  - destruct (analyze_accepted _ _ (default [] (topic data)) E) as [-> ->].
    intros [= <-] [= <-]. now right.
  - rewrite (analyze_rejected _ _ _ E). simpl. intros [= <-] [= <-]. now left.
Qed.

End PageFacts.

(** X17.  On the score and the category of an answer of the handler,
    the colour and the badge of the page are decided by the score alone:
    green from 70 on, yellow from 40 to below 70, red below 40; and the
    tips are shown exactly when the colour is not green. *)
Theorem page_colour_by_score (apiKey : option string)
    (fetchTwinword : string -> string -> option TwinwordResponse)
    (req : option Body) (score : Q) (category : string) :
  responseScore (POST apiKey fetchTwinword req) = Some score ->
  responseCategory (POST apiKey fetchTwinword req) = Some category ->
  HomePage.getScoreColor score category
  = (if geb score 70 then "text-green-600"
     else if geb score 40 then "text-yellow-600" else "text-red-600") /\
  HomePage.getScoreBadge score category
  = (if geb score 70 then "bg-green-100 text-green-800"
     else if geb score 40 then "bg-yellow-100 text-yellow-800"
     else "bg-red-100 text-red-800") /\
  (HomePage.showsTips score = true <->
   HomePage.getScoreColor score category <> "text-green-600").
Proof.
  intros Hs Hc.
  assert (Hhigh : category = "high" -> geb score 70 = true).
  { destruct (POST_score_category _ _ _ _ _ Hs Hc) as [[_ ->] | ->];
      [discriminate |].
    destruct (categoryOf_cases score) as [[_ Hb] | [[-> _] | [[-> _] | [-> _]]]];
      try discriminate.
    intros _. apply geb_true. lra. }
  assert (Hmedium : category = "medium" -> geb score 40 = true).
  { destruct (POST_score_category _ _ _ _ _ Hs Hc) as [[_ ->] | ->];
      [discriminate |].
    destruct (categoryOf_cases score) as [[-> _] | [[_ Hb] | [[-> _] | [-> _]]]];
      try discriminate.
    intros _. apply geb_true. lra. }
  assert (Htips : HomePage.showsTips score = negb (geb score 70)) by reflexivity.
  unfold HomePage.getScoreColor, HomePage.getScoreBadge. rewrite Htips.
  destruct (String.eqb_spec category "high") as [E|_];
    [rewrite (Hhigh E); simpl; repeat split; try discriminate; tauto |].
  rewrite orb_false_r.
  destruct (geb score 70) eqn:E70;
    [simpl; repeat split; try discriminate; tauto |].
  destruct (String.eqb_spec category "medium") as [E|_].
  - rewrite (Hmedium E). simpl. repeat split; discriminate.
  - rewrite orb_false_r.
    destruct (geb score 40); simpl; repeat split; discriminate.
Qed.

Lemma page_colour_by_score_witness :
  HomePage.getScoreColor 90 "high" = "text-green-600" /\
  HomePage.getScoreBadge 90 "high" = "bg-green-100 text-green-800" /\
  (HomePage.showsTips 90 = true <->
   HomePage.getScoreColor 90 "high" <> "text-green-600").
Proof.
  pose (data := {| keyword := Some Sample.keywords; topic := Some Sample.topics;
                   result_code := "200"; result_msg := "" |}).
  apply (page_colour_by_score (Some "key") (fun _ _ => Some data)
           (Some {| body_text := Some Sample.text; body_insertKeyword := None |})
           90%Q "high"); vm_compute; reflexivity.
Defined.

(** X18.  A click on a keyword that is not empty, on a page whose text
    is not blank and which the handler serves, replaces the text by the
    trimmed text with the keyword inserted, in which the keyword occurs,
    and clears the results and the error; neither the API key nor the
    extraction service plays a part. *)
Theorem click_inserts_keyword (apiKey : option string)
    (fetchTwinword : string -> string -> option TwinwordResponse)
    (st : HomePage.State) (text keyword : string) :
  HomePage.text st = Some text ->
  trim text <> EmptyString ->
  keyword <> EmptyString ->
  HomePage.insertKeyword (served apiKey fetchTwinword) st keyword
  = {| HomePage.text := Some (insertKeyword (trim text) keyword);
       HomePage.results := None;
       HomePage.loading := HomePage.loading st;
       HomePage.error := None |} /\
  includes (insertKeyword (trim text) keyword) keyword = true.
Proof.
  intros Ht Hne Hkw. split; [| apply insertKeyword_includes].
  unfold HomePage.insertKeyword, served. rewrite Ht, POST_text.
  assert (H1 : truthy (Some (trim text)) = true) by now apply truthy_Some_true.
  assert (H2 : truthy (Some text) = true).
  { apply truthy_Some_true. intros ->. now apply Hne. }
  assert (H3 : truthy (Some keyword) = true) by now apply truthy_Some_true.
  now rewrite H1, H2, H3.
Qed.

Lemma click_inserts_keyword_witness :
  HomePage.insertKeyword (served None (fun _ _ => None))
    {| HomePage.text := Some "  I like cats. They are great. ";
       HomePage.results := None; HomePage.loading := false;
       HomePage.error := Some "old" |} "feline"
  = {| HomePage.text := Some (insertKeyword (trim "  I like cats. They are great. ") "feline");
       HomePage.results := None;
       HomePage.loading := false;
       HomePage.error := None |} /\
  includes (insertKeyword (trim "  I like cats. They are great. ") "feline") "feline" = true.
Proof.
  apply (click_inserts_keyword None (fun _ _ => None)
           {| HomePage.text := Some "  I like cats. They are great. ";
              HomePage.results := None; HomePage.loading := false;
              HomePage.error := Some "old" |});
    [reflexivity | vm_compute; discriminate | discriminate].
Defined.

(** X19.  A click on the empty keyword is not an insertion for the
    handler: when the text is not blank, the key is set and the service
    answers with code 200, the handler answers an analysis, which has no
    [updatedText], and the page sets its text to undefined. *)
Theorem click_empty_keyword (apiKey : option string)
    (fetchTwinword : string -> string -> option TwinwordResponse)
    (st : HomePage.State) (text key : string) (data : TwinwordResponse) :
  HomePage.text st = Some text ->
  trim text <> EmptyString ->
  apiKey = Some key -> key <> EmptyString ->
  fetchTwinword key (trim text) = Some data ->
  result_code data = "200" ->
  HomePage.text (HomePage.insertKeyword (served apiKey fetchTwinword) st EmptyString)
  = None.
Proof.
  intros Ht Hne Hk Hkey Hf Hc.
  unfold HomePage.insertKeyword, served. rewrite Ht.
  rewrite (POST_analyzes _ _ _ (Some EmptyString) key data Hne eq_refl Hk Hkey Hf Hc).
  destruct (analyze_ok (trim text) (default [] (keyword data))
                       (default [] (topic data))) as (Hs & _ & Hu).
  unfold HomePage.ok. rewrite Hs. simpl. exact Hu.
Qed.

Lemma click_empty_keyword_witness :
  HomePage.text
    (HomePage.insertKeyword
       (served (Some "key")
          (fun _ _ => Some {| keyword := Some Sample.keywords;
                              topic := Some Sample.topics;
                              result_code := "200"; result_msg := "" |}))
       {| HomePage.text := Some Sample.text; HomePage.results := None;
          HomePage.loading := false; HomePage.error := None |} EmptyString)
  = None.
Proof.
  apply (click_empty_keyword (Some "key") _ _ Sample.text "key"
           {| keyword := Some Sample.keywords; topic := Some Sample.topics;
              result_code := "200"; result_msg := "" |});
    try reflexivity; vm_compute; discriminate.
Defined.

(** The case of an error answered by the handler. *)
Ltac error_shown :=
  eexists; split; [reflexivity |]; cbn;
  split; [reflexivity |];
  split; [intros; contradiction |]; split; [intros; contradiction |];
  intros _; split; [reflexivity | right];
  eexists; repeat split; discriminate.

(** X20.  [analyzeText] on a page with a text, served by the handler,
    keeps the text and leaves exactly one of the results and the error
    set.  On a blank text it sends no request and sets the error asking
    for some text; otherwise it ends with [loading] false and either the
    results, an answer that carries a score, or the error message of
    the handler. *)
Theorem analyzeText_outcome (apiKey : option string)
    (fetchTwinword : string -> string -> option TwinwordResponse)
    (st : HomePage.State) (text : string) :
  HomePage.text st = Some text ->
  exists st',
    HomePage.analyzeText (served apiKey fetchTwinword) st = Some st' /\
    HomePage.text st' = Some text /\
    (trim text = EmptyString ->
     forall fetch, HomePage.analyzeText fetch st = Some st') /\
    (trim text = EmptyString ->
     HomePage.results st' = None /\
     HomePage.error st' = Some "Please enter some text before analyzing.") /\
    (trim text <> EmptyString ->
     HomePage.loading st' = false /\
     ((exists res score,
          HomePage.results st' = Some res /\ responseScore res = Some score /\
          HomePage.error st' = None) \/
      (exists message,
          HomePage.results st' = None /\ HomePage.error st' = Some message /\
          message <> EmptyString /\
          HomePage.errorOf (POST apiKey fetchTwinword
                              (Some {| body_text := Some text;
                                       body_insertKeyword := None |}))
          = Some message))).
Proof.
  intros Ht. unfold HomePage.analyzeText. cbn [HomePage.text]. rewrite Ht.
  destruct (truthy (Some (trim text))) eqn:Et; cbn [negb].
  - assert (Hne : trim text <> EmptyString) by now apply truthy_Some_true.
    unfold served.
    pose proof (POST_outcome_holds apiKey fetchTwinword
                  (Some {| body_text := Some text; body_insertKeyword := None |})) as Ho.
    remember (POST apiKey fetchTwinword _) as res eqn:Hres. clear Hres.
    inversion Ho as [| |t ik Hb|
                     |t ik Hb Hik Hk|t ik key Hb Hik Hk Hkey Hf
                     |t ik key data Hb Hik Hk Hkey Hf Hc
                     |t ik key data Hb Hik Hk Hkey Hf Hc]; subst.
    + contradiction.
    + error_shown.
    + error_shown.
    + error_shown.
    + destruct (analyze_ok (trim text) (default [] (keyword data))
                           (default [] (topic data))) as (Hs & He & _).
      unfold HomePage.ok. rewrite Hs. cbn.
      eexists. split; [reflexivity |]. cbn.
      split; [reflexivity |].
      split; [intros; contradiction |]. split; [intros; contradiction |].
      intros _. split; [reflexivity | left].
      unfold analyze.
      destruct (negb (isMeaningfulContent _ _)); eexists _, _; now repeat split.
  - apply truthy_Some in Et.
    eexists. split; [reflexivity |]. cbn.
    split; [reflexivity |]. split; [reflexivity |].
    split; [now split |]. intros Hne. contradiction.
Qed.

Lemma analyzeText_outcome_witness :
  exists st',
    HomePage.analyzeText (served None (fun _ _ => None))
      {| HomePage.text := Some "   "; HomePage.results := None;
         HomePage.loading := false; HomePage.error := None |} = Some st' /\
    HomePage.results st' = None /\
    HomePage.error st' = Some "Please enter some text before analyzing.".
Proof.
  destruct (analyzeText_outcome None (fun _ _ => None)
              {| HomePage.text := Some "   "; HomePage.results := None;
                 HomePage.loading := false; HomePage.error := None |}
              "   " eq_refl) as (st' & H & _ & _ & Hblank & _).
  exists st'. split; [exact H | exact (Hblank eq_refl)].
Defined.

(** ** The text in the score *)

(** X10.  The score reads the text only through the length of the
    trimmed text and its number of words: two texts that agree on both
    get the same score, whatever their words, and so whether or not the
    keywords occur in them. *)
Theorem calculateScore_text_counts_only
    (keywords topics : RecordOf Q) (text1 text2 : string) :
  String.length (trim text1) = String.length (trim text2) ->
  length (splitWs (trim text1)) = length (splitWs (trim text2)) ->
  calculateScore keywords topics text1 = calculateScore keywords topics text2.
Proof.
  intros Hlen Hwords. unfold calculateScore, degenerate, rawScore.
  now rewrite Hlen, Hwords.
Qed.

Lemma calculateScore_text_counts_only_witness :
  calculateScore Sample.keywords Sample.topics
    "Fresh coffee beans roasted daily deliver rich aroma."
  = calculateScore Sample.keywords Sample.topics
    "  Never seen these eight words before today xxxxxxxxx.  ".
Proof. apply calculateScore_text_counts_only; vm_compute; reflexivity. Defined.
